(** * The local-minimum finder of [Plots/Satellites/NCL_sat_1.py]

    A shallow embedding of [findLocalMinima] and of the helpers it calls
    ([makeCoordArr], [sliceTupleArray], the numpy calls [np.diff] and the
    element-wise division), followed by the properties of the locator.
    The file also embeds [findCoordPressureData], the arguments that the
    script builds for the projection of the labels, and, from
    [Plots/Overlays/NCL_overlay_11b.py], the sorting of the shapefile
    records and the loop that draws the clipped contour plots.

    Modelling decisions.
    - Python integers are [Z]; indexing an array or a list with an integer
      follows Python: a negative index counts from the end, anything else
      outside the extent raises [IndexError].
    - A float64 value is modelled by an exact rational ([Q]); rounding is
      not modelled.  A division by zero does not raise in numpy, it yields
      [inf] or [nan]: the result of a division is a [float], either
      [finite q] or [nonfinite].
    - The script reads the global [U] and prints to standard output: both
      live in an explicit [World], and the function maps a world to a
      result and a world.
    - The script fixes [bound = 0.02] and [step = 2] in the body of the
      function; [findLocalMinimaWith] takes them as arguments and
      [findLocalMinima] is its instance at the constants of the script. *)

From Stdlib Require Import String List ZArith QArith Qabs Lia Bool Sorted FinFun Permutation.
Import ListNotations.
Local Open Scope Z_scope.

(** ** Python and numpy primitives *)

Module Py.

(** [len(a)] *)
Definition len {A : Type} (a : list A) : Z := Z.of_nat (length a).

(** [range(n)] *)
Definition range (n : Z) : list Z := map Z.of_nat (seq 0 (Z.to_nat n)).

(** [a[i]] on a list or on the first axis of an array; [None] stands for
    the [IndexError] that Python raises. *)
Definition getitem {A : Type} (a : list A) (i : Z) : option A :=
  if (0 <=? i) && (i <? len a) then nth_error a (Z.to_nat i)
  else if (- len a <=? i) && (i <? 0) then nth_error a (Z.to_nat (len a + i))
  else None.

(** Sequencing of computations that may raise. *)
Definition bind {A B : Type} (e : option A) (k : A -> option B) : option B :=
  match e with
  | Some a => k a
  | None => None
  end.

End Py.

Notation "x <- e ;; k" := (Py.bind e (fun x => k))
  (at level 61, e at next level, right associativity).
Notation "a .[ i ]" := (Py.getitem a i) (at level 1, left associativity, format "a .[ i ]").

(** The result of a float division: a rational, or [inf]/[nan]. *)
Inductive float : Type :=
| finite (q : Q)
| nonfinite.

Module Np.

(** [n / d] on float64 scalars or element-wise on arrays: no exception on
    a zero divisor. *)
Definition divide (n d : Q) : float :=
  if Qeq_bool d 0%Q then nonfinite else finite (n / d)%Q.

(** [abs(d) <= bound]; false on [inf] and on [nan]. *)
Definition abs_le (d : float) (bound : Q) : bool :=
  match d with
  | finite q => Qle_bool (Qabs q) bound
  | nonfinite => false
  end.

(** [a > b] on float64 scalars. *)
Definition gt (a b : Q) : bool := negb (Qle_bool a b).

(** [np.diff] along the last axis of a one-dimensional array. *)
Fixpoint diff (a : list Q) : list Q :=
  match a with
  | x :: (y :: _) as t => (y - x)%Q :: diff t
  | _ => []
  end.

(** [np.diff] of a two-dimensional array: along the last axis. *)
Definition diff2 (a : list (list Q)) : list (list Q) := map diff a.

(** Element-wise combination of two arrays of the same shape. *)
Fixpoint zip_with {A B C : Type} (f : A -> B -> C) (a : list A) (b : list B) : list C :=
  match a, b with
  | x :: a', y :: b' => f x y :: zip_with f a' b'
  | _, _ => []
  end.

(** [a / b] on two-dimensional arrays of the same shape. *)
Definition divide2 (a b : list (list Q)) : list (list float) :=
  zip_with (zip_with divide) a b.

End Np.

(** ** The data *)

(** The [xarray.DataArray] [U]: the pressure values over [(lat, lon)] and
    its two coordinate arrays. *)
Record DataArray : Type := {
  data : list (list Q);
  lat : list Q;
  lon : list Q
}.

(** What the function reads and writes: the global [U] and the lines
    printed so far. *)
Record World : Type := {
  U : DataArray;
  stdout : list (Z * Z)
}.

Definition H (u : DataArray) : Z := Py.len (lat u).
Definition W (u : DataArray) : Z := Py.len (lon u).

(** A [DataArray] over the dimensions [(lat, lon)]: [data] has one row per
    latitude and one column per longitude, and no dimension is empty. *)
Definition rectangular (u : DataArray) : Prop :=
  Py.len (data u) = H u /\ Forall (fun row => Py.len row = W u) (data u).

Definition well_formed (u : DataArray) : Prop :=
  rectangular u /\ 0 < H u /\ 0 < W u.

(** ** The helpers of the script *)

(** [makeCoordArr]: the array of [(lat, lon)] pairs, of the shape of the
    data. *)
Definition makeCoordArr (u : DataArray) : list (list (Q * Q)) :=
  map (fun x => map (fun y => (x, y)) (lon u)) (lat u).

(** [x[:, index]] for a row [x] of pairs. *)
Definition column (index : Z) (x : list (Q * Q)) : list Q :=
  map (fun p => if index =? 0 then fst p else snd p) x.

(** [sliceTupleArray] *)
Definition sliceTupleArray (tupleArray : list (list (Q * Q))) (index : Z) : list (list Q) :=
  map (column index) tupleArray.

(** ** Stage 1: the zeros of the derivative along the longitude *)

(** The inner loop [for y in range(x)]: an index error at [dpdlon[x][y]]
    is not caught. *)
Fixpoint scanColumns (bound : Q) (dpdlon : list (list float)) (x : Z) (ys : list Z)
  : option (list (Z * Z)) :=
  match ys with
  | [] => Some []
  | y :: ys' =>
      row <- dpdlon.[x] ;;
      d <- row.[y] ;;
      rest <- scanColumns bound dpdlon x ys' ;;
      Some (if Np.abs_le d bound then (x, y) :: rest else rest)
  end.

(** The outer loop [for x in range(len(dpdlon))]. *)
Fixpoint scanRows (bound : Q) (dpdlon : list (list float)) (xs : list Z)
  : option (list (Z * Z)) :=
  match xs with
  | [] => Some []
  | x :: xs' =>
      here <- scanColumns bound dpdlon x (Py.range x) ;;
      rest <- scanRows bound dpdlon xs' ;;
      Some (here ++ rest)
  end.

Definition dpdlon (u : DataArray) : list (list float) :=
  let coordarr := makeCoordArr u in
  let londata := sliceTupleArray coordarr 1 in
  Np.divide2 (Np.diff2 (data u)) (Np.diff2 londata).

Definition lonZeros (bound : Q) (u : DataArray) : option (list (Z * Z)) :=
  scanRows bound (dpdlon u) (Py.range (Py.len (dpdlon u))).

(** ** Stage 2: the derivative along the latitude *)

(** The body of the [try]: [None] when one of the lookups raises. *)
Definition dpdlat (u : DataArray) (latdata : list (list Q)) (x y : Z) : option float :=
  r1 <- (data u).[x + 1] ;;
  a <- r1.[y] ;;
  r0 <- (data u).[x] ;;
  b <- r0.[y] ;;
  l1 <- latdata.[x + 1] ;;
  la <- l1.[y] ;;
  l0 <- latdata.[x] ;;
  lb <- l0.[y] ;;
  Some (Np.divide (a - b)%Q (la - lb)%Q).

(** The loop [for coord in lonZeros]: the pair of [arraylocations] and of
    the lines printed by the [except] branch.  (The list [coords] that the
    script fills alongside [arraylocations] is never read.) *)
Fixpoint latZeros (bound : Q) (u : DataArray) (latdata : list (list Q))
    (lonZeros : list (Z * Z)) : list (Z * Z) * list (Z * Z) :=
  match lonZeros with
  | [] => ([], [])
  | (x, y) :: rest =>
      let '(arraylocations, printed) := latZeros bound u latdata rest in
      match dpdlat u latdata x y with
      | None => (arraylocations, (x + 1, y) :: printed)
      | Some d =>
          if Np.abs_le d bound then ((x, y) :: arraylocations, printed)
          else (arraylocations, printed)
      end
  end.

(** ** Stage 3: the minima *)

(** The condition of the [if], with the short circuit of [and]; [None]
    when one of the lookups raises. *)
Definition isMinimum (u : DataArray) (step : Z) (x y : Z) : option bool :=
  ra <- (data u).[x + step] ;;
  above <- ra.[y] ;;
  r0 <- (data u).[x] ;;
  here <- r0.[y] ;;
  if Np.gt above here then
    rb <- (data u).[x - step] ;;
    below <- rb.[y] ;;
    r0' <- (data u).[x] ;;
    here' <- r0'.[y] ;;
    Some (Np.gt below here')
  else Some false.

(** The loop [for coord in arraylocations]. *)
Fixpoint minima (u : DataArray) (step : Z) (arraylocations : list (Z * Z)) : list (Z * Z) :=
  match arraylocations with
  | [] => []
  | (x, y) :: rest =>
      match isMinimum u step x y with
      | Some true => (- x, y - 180) :: minima u step rest
      | _ => minima u step rest
      end
  end.

(** ** The function *)

Definition arraylocations (bound : Q) (u : DataArray) : option (list (Z * Z)) :=
  let latdata := sliceTupleArray (makeCoordArr u) 0 in
  zeros <- lonZeros bound u ;;
  Some (fst (latZeros bound u latdata zeros)).

(** The result is [None] when an exception leaves the function. *)
Definition findLocalMinimaWith (bound : Q) (step : Z) (w : World)
  : option (list (Z * Z)) * World :=
  let u := U w in
  let latdata := sliceTupleArray (makeCoordArr u) 0 in
  match lonZeros bound u with
  | None => (None, w)
  | Some zeros =>
      let '(locations, printed) := latZeros bound u latdata zeros in
      (Some (minima u step locations),
       {| U := u; stdout := stdout w ++ printed |})
  end.

Definition findLocalMinima : World -> option (list (Z * Z)) * World :=
  findLocalMinimaWith (2 # 100) 2.

(** ** Sample grids *)

Definition qs (l : list Z) : list Q := map inject_Z l.

Definition grid (rows : list (list Z)) (lats lons : list Z) : DataArray :=
  {| data := map qs rows; lat := qs lats; lon := qs lons |}.

Definition fresh (u : DataArray) : World := {| U := u; stdout := [] |}.

(** The field of the example: [(i-2)^2 + (j-2)^2] on a 5 x 5 grid. *)
Definition paraboloid : list (list Z) :=
  map (fun i => map (fun j => (i - 2) ^ 2 + (j - 2) ^ 2) (Py.range 5)) (Py.range 5).

(** ** The claims' side: the grid read at in-range indices *)

(** [a[i]] for [0 <= i < len a] and nothing elsewhere. *)
Definition at_index {A : Type} (a : list A) (i : Z) : option A :=
  if i <? 0 then None else nth_error a (Z.to_nat i).

(** [a[i][j]] for a row [i] and a column [j] of the grid. *)
Definition cell {A : Type} (a : list (list A)) (i j : Z) : option A :=
  match at_index a i with
  | Some row => at_index row j
  | None => None
  end.

(** The field [F]. *)
Definition F (u : DataArray) : Z -> Z -> option Q := cell (data u).

(** [(F[i][j+1] - F[i][j]) / (lon[j+1] - lon[j])] *)
Definition dF_dlon (u : DataArray) (i j : Z) : option float :=
  match F u i (j + 1), F u i j, at_index (lon u) (j + 1), at_index (lon u) j with
  | Some a, Some b, Some la, Some lb => Some (Np.divide (a - b)%Q (la - lb)%Q)
  | _, _, _, _ => None
  end.

Definition lonStationary (eps : Q) (u : DataArray) (i j : Z) : bool :=
  match dF_dlon u i j with
  | Some d => Np.abs_le d eps
  | None => false
  end.

(** The latitude of each cell, from the grid of coordinate pairs. *)
Definition latGrid (u : DataArray) : list (list Q) := sliceTupleArray (makeCoordArr u) 0.

(** [(F[i+1][j] - F[i][j]) / (lat[i+1][j] - lat[i][j])] *)
Definition dF_dlat (u : DataArray) (i j : Z) : option float :=
  match F u (i + 1) j, F u i j, cell (latGrid u) (i + 1) j, cell (latGrid u) i j with
  | Some a, Some b, Some la, Some lb => Some (Np.divide (a - b)%Q (la - lb)%Q)
  | _, _, _, _ => None
  end.

Definition latStationary (eps : Q) (u : DataArray) (i j : Z) : bool :=
  match dF_dlat u i j with
  | Some d => Np.abs_le d eps
  | None => false
  end.

(** The cells that stage 1 visits on a grid of [h] rows, in the order of
    the visit: row after row, the columns [0 .. i-1] of row [i]. *)
Definition cells (h : Z) : list (Z * Z) :=
  flat_map (fun i => map (fun j => (i, j)) (Py.range i)) (Py.range h).

(** The row that the lookup [F[i - step]] reads: Python counts a negative
    index from the end of the array. *)
Definition rowBelow (u : DataArray) (step i : Z) : Z :=
  if i - step <? 0 then H u + (i - step) else i - step.

(** [F[i][j] < F[i+step][j]] and [F[i][j] < F[i-step][j]], the second
    neighbour being read at [rowBelow]. *)
Definition strictMinimum (u : DataArray) (step i j : Z) : bool :=
  match F u (i + step) j, F u (rowBelow u step i) j, F u i j with
  | Some above, Some below, Some here => Np.gt above here && Np.gt below here
  | _, _, _ => false
  end.

(** The output convention. *)
Definition translate (c : Z * Z) : Z * Z := (- fst c, snd c - 180).

(** Row-major order on index pairs. *)
Definition rowMajor (p q : Z * Z) : Prop :=
  fst p < fst q \/ (fst p = fst q /\ snd p < snd q).

(** ** Auxiliary definitions *)

(** The entry [a[x][y]] of a two-dimensional array, as Python reads it. *)
Definition entry {A : Type} (a : list (list A)) (x y : Z) : option A :=
  row <- a.[x] ;; row.[y].

(** The test of stage 1 on the array of derivatives. *)
Definition passes (bound : Q) (dp : list (list float)) (c : Z * Z) : bool :=
  match entry dp (fst c) (snd c) with
  | Some d => Np.abs_le d bound
  | None => false
  end.

(** Whether a computation raised. *)
Definition isNone {A : Type} (o : option A) : bool :=
  match o with Some _ => false | None => true end.

(** The outcome of the [try] of stage 3: the candidate is appended. *)
Definition confirmed (u : DataArray) (step : Z) (c : Z * Z) : bool :=
  match isMinimum u step (fst c) (snd c) with
  | Some true => true
  | _ => false
  end.

(** [F[i][j]] is the same at every cell. *)
Definition constant (u : DataArray) : Prop :=
  exists c : Q, Forall (Forall (fun v => (v == c)%Q)) (data u).

(** [F] does not decrease from a row to a later row. *)
Definition nondecreasingAlongLat (u : DataArray) : Prop :=
  forall i i' j a b,
    i <= i' -> F u i j = Some a -> F u i' j = Some b -> (a <= b)%Q.

(** ** More sample grids *)

(** A constant field on 2 rows and 3 columns. *)
Definition flatGrid : DataArray := grid [[7; 7; 7]; [7; 7; 7]] [0; 1] [0; 1; 2].

(** A constant field on 3 rows and 2 columns. *)
Definition tallFlat : DataArray := grid [[7; 7]; [7; 7]; [7; 7]] [0; 1; 2] [0; 1].

(** A trough along rows 1 and 2, on 4 rows and 4 columns. *)
Definition polarLow : DataArray :=
  grid [[5; 5; 5; 5]; [0; 0; 0; 0]; [0; 0; 0; 0]; [5; 5; 5; 5]] [0; 1; 2; 3] [0; 1; 2; 3].

(** [F[i][j] = i + j] on 4 rows and 4 columns spaced by 64: the field
    increases along both axes, with slope [1/64]. *)
Definition slope : DataArray :=
  grid [[0; 1; 2; 3]; [1; 2; 3; 4]; [2; 3; 4; 5]; [3; 4; 5; 6]]
       [0; 64; 128; 192] [0; 64; 128; 192].

(** The paraboloid with unit-spaced coordinates. *)
Definition bowl : DataArray := grid paraboloid [0; 1; 2; 3; 4] [0; 1; 2; 3; 4].

(** Strictly increasing values, from each one to the next. *)
Fixpoint increasing (l : list Q) : bool :=
  match l with
  | x :: (y :: _) as t => Np.gt y x && increasing t
  | _ => true
  end.

(** Each value of [s] is above the value of [r] in the same column. *)
Definition rowAbove (r s : list Q) : bool :=
  forallb (fun p => Np.gt (snd p) (fst p)) (combine r s).

Fixpoint increasingRows (rows : list (list Q)) : bool :=
  match rows with
  | r :: (s :: _) as t => rowAbove r s && increasingRows t
  | _ => true
  end.

Definition increasingAlongLon (u : DataArray) : bool := forallb increasing (data u).
Definition increasingAlongLat (u : DataArray) : bool := increasingRows (data u).

(** A trough along rows 2 and 3, on 6 rows and 6 columns. *)
Definition basin : DataArray :=
  grid [[5; 5; 5; 5; 5; 5]; [5; 5; 5; 5; 5; 5]; [0; 0; 0; 0; 0; 0];
        [0; 0; 0; 0; 0; 0]; [5; 5; 5; 5; 5; 5]; [5; 5; 5; 5; 5; 5]]
       [0; 1; 2; 3; 4; 5] [0; 1; 2; 3; 4; 5].

(** ** The other code of the scripts *)

(** [findCoordPressureData] of [NCL_sat_1.py]: the values it prints, and
    whether the loops ran to their end ([false]: an [IndexError] left the
    function, after the values already printed). *)
Fixpoint pressureRow (u : DataArray) (coordarr : list (list (Q * Q))) (lat lon : Q)
    (x : Z) (ys : list Z) : list Q * bool :=
  match ys with
  | [] => ([], true)
  | y :: ys' =>
      match entry coordarr x y with
      | None => ([], false)
      | Some c =>
          if Qeq_bool (fst c) lat && Qeq_bool (snd c) lon then
            match entry (data u) (- x) y with
            | None => ([], false)
            | Some p =>
                let '(printed, ok) := pressureRow u coordarr lat lon x ys' in
                (p :: printed, ok)
            end
          else pressureRow u coordarr lat lon x ys'
      end
  end.

Fixpoint pressureRows (u : DataArray) (coordarr : list (list (Q * Q))) (lat lon : Q)
    (xs : list Z) : list Q * bool :=
  match xs with
  | [] => ([], true)
  | x :: xs' =>
      match coordarr.[x] with
      | None => ([], false)
      | Some row =>
          let '(printed, ok) := pressureRow u coordarr lat lon x (Py.range (Py.len row)) in
          if ok then
            let '(rest, ok') := pressureRows u coordarr lat lon xs' in
            (printed ++ rest, ok')
          else (printed, false)
      end
  end.

Definition findCoordPressureData (u : DataArray) (coordarr : list (list (Q * Q)))
    (lat lon : Q) : list Q * bool :=
  pressureRows u coordarr lat lon (Py.range (Py.len coordarr)).

(** The arguments that the script passes to [transform_points] for the
    low-pressure labels: [x[1]] of each minimum as longitudes, [x[0]] as
    latitudes. *)
Definition geodeticArguments (lowClevels : list (Z * Z)) : list Z * list Z :=
  (map snd lowClevels, map fst lowClevels).

(** All the cells of a grid of [h] rows and [w] columns, row after row. *)
Definition gridCells (h w : Z) : list (Z * Z) :=
  flat_map (fun i => map (fun j => (i, j)) (Py.range w)) (Py.range h).

(** The row that [U.data[-x]] reads. *)
Definition mirrorRow (u : DataArray) (x : Z) : Z := if x =? 0 then 0 else H u - x.

(** The cell [(x, y)] has the coordinates [(la, lo)]. *)
Definition atCoordinates (u : DataArray) (la lo : Q) (c : Z * Z) : bool :=
  match at_index (lat u) (fst c), at_index (lon u) (snd c) with
  | Some a, Some b => Qeq_bool a la && Qeq_bool b lo
  | _, _ => false
  end.

(** No two entries of a coordinate array are equal. *)
Definition distinct (l : list Q) : Prop :=
  forall i j a b,
    at_index l i = Some a -> at_index l j = Some b -> (a == b)%Q -> i = j.

(** The order of the output: the first component decreases, and at equal
    first components the second increases. *)
Definition outputOrder (p q : Z * Z) : Prop :=
  fst q < fst p \/ (fst p = fst q /\ snd p < snd q).

(** The part of [NCL_overlay_11b.py] that sorts the records of the
    shapefiles and draws the clipped contour plots.  The geometries and
    the objects of the plotting library are opaque. *)
Module Overlay.

Section Script.

Variables Geometry Path Patch ContourSet Collection : Type.

(** A record of a shapefile: its attribute table and its geometry. *)
Record ShapeRecord : Type := {
  attributes : list (string * string);
  geometry : Geometry
}.

(** [d[key]]; [None] stands for [KeyError]. *)
Fixpoint dictGet (d : list (string * string)) (key : string) : option string :=
  match d with
  | [] => None
  | (k, v) :: d' => if String.eqb k key then Some v else dictGet d' key
  end.

(** [v in names] *)
Definition inList (v : string) (names : list string) : bool :=
  existsb (String.eqb v) names.

(** The loop over the country records: the pair of [country_geos] and
    [other_land_geos]. *)
Fixpoint sortGeometries (records : list ShapeRecord)
  : option (list Geometry * list Geometry) :=
  match records with
  | [] => Some ([], [])
  | record :: rest =>
      admin <- dictGet (attributes record) "ADMIN" ;;
      sorted <- sortGeometries rest ;;
      Some (if inList admin ["China"%string; "Taiwan"%string]
            then (geometry record :: fst sorted, snd sorted)
            else (fst sorted, geometry record :: snd sorted))
  end.

(** The comprehension that builds [province_geos]. *)
Fixpoint provinceGeometries (records : list ShapeRecord) : option (list Geometry) :=
  match records with
  | [] => Some []
  | record :: rest =>
      admin <- dictGet (attributes record) "admin" ;;
      kept <- provinceGeometries rest ;;
      Some (if String.eqb admin "China" then geometry record :: kept else kept)
  end.

(** The record is the one of China or of Taiwan. *)
Definition isCountry (record : ShapeRecord) : bool :=
  match dictGet (attributes record) "ADMIN" with
  | Some admin => inList admin ["China"%string; "Taiwan"%string]
  | None => false
  end.

(** The record is the one of a province of China. *)
Definition isProvince (record : ShapeRecord) : bool :=
  match dictGet (attributes record) "admin" with
  | Some admin => String.eqb admin "China"
  | None => false
  end.

(** The calls made on the axes and on the figure. *)
Inductive Call : Type :=
| add_patch (patch : Patch)
| contourf
| set_clip_path (col : Collection) (patch : Patch)
| colorbar (cf : ContourSet).

(** The plotting library: the paths of a list of geometries, the patch of
    a path, the contour set that [ax.contourf] returns after the calls
    made so far, and the collections of a contour set. *)
Variable geos_to_path : list Geometry -> list Path.
Variable PathPatch : Path -> Patch.
Variable contourSet : list Call -> ContourSet.
Variable collections : ContourSet -> list Collection.

(** The loop [for path in geos_to_path(country_geos)]: the calls made
    and the binding of [cf]. *)
Fixpoint clipLoop (paths : list Path) (calls : list Call) (cf : option ContourSet)
  : list Call * option ContourSet :=
  match paths with
  | [] => (calls, cf)
  | path :: rest =>
      let patch := PathPatch path in
      let calls := (calls ++ [add_patch patch])%list in
      let cf := contourSet calls in
      let calls := (calls ++ [contourf])%list in
      let calls := (calls ++ map (fun col => set_clip_path col patch) (collections cf))%list in
      clipLoop rest calls (Some cf)
  end.

(** The loop followed by [fig.colorbar(cf, ...)]; [None] stands for the
    [NameError] raised when [cf] was never bound. *)
Definition drawContours (country_geos : list Geometry) : option (list Call) :=
  let '(calls, cf) := clipLoop (geos_to_path country_geos) [] None in
  match cf with
  | Some cf => Some (calls ++ [colorbar cf])%list
  | None => None
  end.

(** The number of calls of [ax.contourf]. *)
Definition isContourf (c : Call) : bool :=
  match c with contourf => true | _ => false end.

(** The patches that were added to the axes. *)
Definition addedPatches (calls : list Call) : list Patch :=
  flat_map (fun c => match c with add_patch p => [p] | _ => [] end) calls.

(** The patches that clip a collection. *)
Definition clipPatches (calls : list Call) : list Patch :=
  flat_map (fun c => match c with set_clip_path _ p => [p] | _ => [] end) calls.

End Script.

End Overlay.

Arguments Overlay.add_patch {Patch ContourSet Collection} patch.
Arguments Overlay.contourf {Patch ContourSet Collection}.
Arguments Overlay.set_clip_path {Patch ContourSet Collection} col patch.
Arguments Overlay.colorbar {Patch ContourSet Collection} cf.

(** Two fields on 3 rows and 4 columns that differ in the last column only. *)
Definition wideLow : DataArray :=
  grid [[5; 5; 5; 9]; [0; 0; 0; 7]; [5; 5; 5; 8]] [0; 1; 2] [0; 1; 2; 3].

Definition wideLow' : DataArray :=
  grid [[5; 5; 5; 1]; [0; 0; 0; 2]; [5; 5; 5; 3]] [0; 1; 2] [0; 1; 2; 3].

(** Four records of a shapefile, their geometries numbered. *)
Definition sampleRecords : list (Overlay.ShapeRecord Z) :=
  [Overlay.Build_ShapeRecord Z [("NAME", "Zhongguo"); ("ADMIN", "China")]%string 1;
   Overlay.Build_ShapeRecord Z [("ADMIN", "Japan")]%string 2;
   Overlay.Build_ShapeRecord Z [("ADMIN", "Taiwan")]%string 3;
   Overlay.Build_ShapeRecord Z [("ADMIN", "India"); ("admin", "China")]%string 4].

(** A plotting library on numbered objects: one path for each geometry,
    and two collections in each contour set. *)
Definition sampleDraw (country_geos : list Z) : option (list (Overlay.Call Z nat nat)) :=
  Overlay.drawContours Z Z Z nat nat (fun geos => geos) Z.succ
    (fun calls => length calls) (fun n => [n; S n]) country_geos.

(** * Properties *)

(** ** Indexing *)

Lemma getitem_nonneg {A : Type} (a : list A) (i : Z) :
  0 <= i -> a.[i] = at_index a i.
Proof.
  intros Hi. unfold Py.getitem, at_index.
  destruct (i <? 0) eqn:E; [apply Z.ltb_lt in E; lia |].
  destruct (0 <=? i) eqn:E0; [| apply Z.leb_gt in E0; lia].
  destruct (i <? Py.len a) eqn:E1; simpl; [reflexivity |].
  rewrite andb_false_r.
  symmetry. apply nth_error_None. apply Z.ltb_ge in E1. unfold Py.len in E1. lia.
Qed.

Lemma getitem_negative {A : Type} (a : list A) (i : Z) :
  - Py.len a <= i < 0 -> a.[i] = at_index a (Py.len a + i).
Proof.
  intros Hi. unfold Py.getitem, at_index.
  destruct (0 <=? i) eqn:E0; [apply Z.leb_le in E0; lia |].
  simpl.
  destruct (- Py.len a <=? i) eqn:E1; [| apply Z.leb_gt in E1; lia].
  destruct (i <? 0) eqn:E2; [| apply Z.ltb_ge in E2; lia].
  simpl.
  destruct (Py.len a + i <? 0) eqn:E3; [apply Z.ltb_lt in E3; lia | reflexivity].
Qed.

Lemma at_index_Some {A : Type} (a : list A) (i : Z) (v : A) :
  at_index a i = Some v -> 0 <= i < Py.len a.
Proof.
  unfold at_index.
  destruct (i <? 0) eqn:E; [discriminate |].
  intros Hn. apply Z.ltb_ge in E.
  assert (Hlt : (Z.to_nat i < length a)%nat) by (apply nth_error_Some; congruence).
  unfold Py.len. lia.
Qed.

Lemma at_index_None {A : Type} (a : list A) (i : Z) :
  Py.len a <= i -> at_index a i = None.
Proof.
  intros Hi. unfold at_index.
  destruct (i <? 0); [reflexivity |].
  apply nth_error_None. unfold Py.len in Hi. lia.
Qed.

Lemma at_index_of_nat {A : Type} (a : list A) (n : nat) :
  at_index a (Z.of_nat n) = nth_error a n.
Proof.
  unfold at_index.
  destruct (Z.of_nat n <? 0) eqn:E; [apply Z.ltb_lt in E; lia |].
  now rewrite Nat2Z.id.
Qed.

Lemma at_index_succ {A : Type} (a : list A) (n : nat) :
  at_index a (Z.of_nat n + 1) = nth_error a (S n).
Proof.
  replace (Z.of_nat n + 1) with (Z.of_nat (S n)) by lia.
  apply at_index_of_nat.
Qed.

(** ** Ranges and scanned cells *)

Lemma in_range (n x : Z) : In x (Py.range n) <-> 0 <= x < n.
Proof.
  unfold Py.range. rewrite in_map_iff. split.
  - intros [k [Hk Hin]]. apply in_seq in Hin. lia.
  - intros Hx. exists (Z.to_nat x). split; [lia |]. apply in_seq. lia.
Qed.

Lemma in_cells (h i j : Z) : In (i, j) (cells h) <-> 0 <= j < i /\ i < h.
Proof.
  unfold cells. rewrite in_flat_map. split.
  - intros [x [Hx Hin]]. apply in_map_iff in Hin. destruct Hin as [y [Heq Hy]].
    inversion Heq; subst. apply in_range in Hx. apply in_range in Hy. lia.
  - intros [Hj Hi]. exists i. split.
    + apply in_range. lia.
    + apply in_map_iff. exists j. split; [reflexivity |]. apply in_range. lia.
Qed.

Lemma filter_pairs {B : Type} (f : Z * B -> bool) (x : Z) (ys : list B) :
  filter f (map (fun y => (x, y)) ys) = map (fun y => (x, y)) (filter (fun y => f (x, y)) ys).
Proof.
  induction ys as [| y ys IH]; simpl; [reflexivity |].
  destruct (f (x, y)); simpl; now rewrite IH.
Qed.

(** ** Arrays *)

Lemma nth_error_diff (a : list Q) (n : nat) :
  nth_error (Np.diff a) n =
  match nth_error a (S n), nth_error a n with
  | Some y, Some x => Some (y - x)%Q
  | _, _ => None
  end.
Proof.
  revert n. induction a as [| x a IH]; intros n.
  - now destruct n.
  - destruct a as [| y a'].
    + destruct n as [| [| n]]; reflexivity.
    + destruct n as [| n].
      * reflexivity.
      * change (Np.diff (x :: y :: a')) with ((y - x)%Q :: Np.diff (y :: a')).
        simpl nth_error at 1. rewrite IH. reflexivity.
Qed.

Lemma nth_error_zip_with {A B C : Type} (f : A -> B -> C) (a : list A) (b : list B) (n : nat) :
  nth_error (Np.zip_with f a b) n =
  match nth_error a n, nth_error b n with
  | Some x, Some y => Some (f x y)
  | _, _ => None
  end.
Proof.
  revert b n. induction a as [| x a IH]; intros b n.
  - now destruct n.
  - destruct b as [| y b].
    + destruct n; simpl; [reflexivity |]. now destruct (nth_error a n).
    + destruct n; simpl; [reflexivity | apply IH].
Qed.

Lemma length_zip_with {A B C : Type} (f : A -> B -> C) (a : list A) (b : list B) :
  length a = length b -> length (Np.zip_with f a b) = length a.
Proof.
  revert b. induction a as [| x a IH]; intros [| y b] Hl; simpl in *; try discriminate;
    [reflexivity |]. f_equal. apply IH. congruence.
Qed.

Lemma lonGrid_rows (u : DataArray) :
  sliceTupleArray (makeCoordArr u) 1 = map (fun _ => lon u) (lat u).
Proof.
  unfold sliceTupleArray, makeCoordArr, column. rewrite map_map.
  apply map_ext. intros x. rewrite map_map. simpl. apply map_id.
Qed.

Lemma latGrid_rows (u : DataArray) :
  latGrid u = map (fun x => map (fun _ => x) (lon u)) (lat u).
Proof.
  unfold latGrid, sliceTupleArray, makeCoordArr, column. rewrite map_map.
  apply map_ext. intros x. now rewrite map_map.
Qed.

Lemma len_dpdlon (u : DataArray) : rectangular u -> Py.len (dpdlon u) = H u.
Proof.
  intros [Hrows _]. unfold dpdlon, Np.divide2, Np.diff2, H, Py.len in *.
  rewrite lonGrid_rows. rewrite length_zip_with.
  - rewrite length_map. exact Hrows.
  - rewrite !length_map. lia.
Qed.

Lemma entry_nonneg {A : Type} (a : list (list A)) (x y : Z) :
  0 <= x -> 0 <= y -> entry a x y = cell a x y.
Proof.
  intros Hx Hy. unfold entry, cell, Py.bind. rewrite (getitem_nonneg a x Hx).
  destruct (at_index a x) as [row |]; [apply getitem_nonneg; exact Hy | reflexivity].
Qed.

Lemma cell_of_nat {A : Type} (a : list (list A)) (n m : nat) :
  cell a (Z.of_nat n) (Z.of_nat m) =
  match nth_error a n with Some row => nth_error row m | None => None end.
Proof.
  unfold cell. rewrite at_index_of_nat. destruct (nth_error a n); [apply at_index_of_nat | reflexivity].
Qed.

Lemma cell_dpdlon (u : DataArray) (x y : Z) :
  rectangular u -> 0 <= x < H u -> 0 <= y ->
  cell (dpdlon u) x y = dF_dlon u x y.
Proof.
  intros [Hrows _] Hx Hy.
  rewrite <- (Z2Nat.id x) by lia. rewrite <- (Z2Nat.id y) by lia.
  set (n := Z.to_nat x). set (m := Z.to_nat y).
  unfold dF_dlon, F. rewrite at_index_succ, at_index_of_nat.
  replace (Z.of_nat m + 1) with (Z.of_nat (S m)) by lia.
  rewrite !cell_of_nat.
  unfold dpdlon, Np.divide2, Np.diff2. rewrite lonGrid_rows.
  rewrite nth_error_zip_with, !nth_error_map.
  assert (Hn : (n < length (lat u))%nat) by (unfold H, Py.len in Hx; subst n; lia).
  destruct (nth_error (lat u) n) as [l |] eqn:El;
    [| apply nth_error_None in El; lia].
  destruct (nth_error (data u) n) as [row |] eqn:Er;
    [| apply nth_error_None in Er; unfold H, Py.len in Hrows; lia].
  cbn [option_map]. rewrite nth_error_zip_with, !nth_error_diff.
  destruct (nth_error row (S m)), (nth_error row m),
    (nth_error (lon u) (S m)), (nth_error (lon u) m); reflexivity.
Qed.

Lemma at_index_defined {A : Type} (a : list A) (i : Z) :
  0 <= i < Py.len a -> exists v, at_index a i = Some v.
Proof.
  intros Hi. unfold at_index.
  destruct (i <? 0) eqn:E; [apply Z.ltb_lt in E; lia |].
  destruct (nth_error a (Z.to_nat i)) as [v |] eqn:En; [now exists v |].
  apply nth_error_None in En. unfold Py.len in Hi. lia.
Qed.

Lemma at_index_In {A : Type} (a : list A) (i : Z) (v : A) :
  at_index a i = Some v -> In v a.
Proof.
  unfold at_index. destruct (i <? 0); [discriminate |]. apply nth_error_In.
Qed.

Lemma F_defined (u : DataArray) (i j : Z) :
  rectangular u -> 0 <= i < H u -> 0 <= j < W u -> exists v, F u i j = Some v.
Proof.
  intros [Hrows Hcols] Hi Hj. unfold F, cell.
  destruct (at_index_defined (data u) i) as [row Hrow]; [lia |].
  rewrite Hrow. apply at_index_defined.
  rewrite Forall_forall in Hcols. rewrite (Hcols row); [exact Hj |].
  eapply at_index_In; eassumption.
Qed.

Lemma F_Some_bounds (u : DataArray) (i j : Z) (v : Q) :
  rectangular u -> F u i j = Some v -> 0 <= i < H u /\ 0 <= j < W u.
Proof.
  intros [Hrows Hcols] Hv. unfold F, cell in Hv.
  destruct (at_index (data u) i) as [row |] eqn:Hrow; [| discriminate].
  pose proof (at_index_Some _ _ _ Hrow) as Hi.
  pose proof (at_index_Some _ _ _ Hv) as Hj.
  rewrite Forall_forall in Hcols. rewrite (Hcols row) in Hj by (eapply at_index_In; eassumption).
  lia.
Qed.

Lemma dF_dlon_defined (u : DataArray) (i j : Z) :
  rectangular u -> 0 <= i < H u -> 0 <= j -> j + 1 < W u -> dF_dlon u i j <> None.
Proof.
  intros Hr Hi Hj Hj1. unfold dF_dlon.
  destruct (F_defined u i (j + 1) Hr) as [a ->]; [lia | lia |].
  destruct (F_defined u i j Hr) as [b ->]; [lia | lia |].
  destruct (at_index_defined (lon u) (j + 1)) as [la ->]; [unfold W in Hj1; lia |].
  destruct (at_index_defined (lon u) j) as [lb ->]; [unfold W in Hj1; lia |].
  discriminate.
Qed.

(** ** Stage 1 *)

Lemma scanColumns_inv (bound : Q) (dp : list (list float)) (x : Z) (ys : list Z)
    (r : list (Z * Z)) :
  scanColumns bound dp x ys = Some r ->
  r = map (fun y => (x, y)) (filter (fun y => passes bound dp (x, y)) ys).
Proof.
  revert r. induction ys as [| y ys IH]; intros r Hs; simpl in Hs.
  - now inversion Hs.
  - unfold passes, entry in *. simpl in *. unfold Py.bind in *.
    destruct (dp.[x]) as [row |]; [| discriminate].
    destruct (row.[y]) as [d |]; [| discriminate].
    destruct (scanColumns bound dp x ys) as [rest |]; [| discriminate].
    inversion Hs; subst. rewrite (IH rest eq_refl).
    now destruct (Np.abs_le d bound).
Qed.

Lemma scanColumns_total (bound : Q) (dp : list (list float)) (x : Z) (ys : list Z) :
  (forall y, In y ys -> entry dp x y <> None) ->
  exists r, scanColumns bound dp x ys = Some r.
Proof.
  induction ys as [| y ys IH]; intros Hall; simpl.
  - now exists [].
  - destruct IH as [rest Hrest]; [intros; apply Hall; now right |].
    specialize (Hall y (or_introl eq_refl)). unfold entry, Py.bind in *.
    destruct (dp.[x]) as [row |]; [| congruence].
    destruct (row.[y]) as [d |]; [| congruence].
    rewrite Hrest. eauto.
Qed.

Lemma scanColumns_raises (bound : Q) (dp : list (list float)) (x : Z) (ys : list Z) :
  (exists y, In y ys /\ entry dp x y = None) -> scanColumns bound dp x ys = None.
Proof.
  induction ys as [| y ys IH]; intros [y0 [Hin Hy0]]; [destruct Hin |].
  simpl. unfold entry, Py.bind in *.
  destruct (dp.[x]) as [row |]; [| reflexivity].
  destruct (row.[y]) as [d |] eqn:Ed; [| reflexivity].
  rewrite IH; [reflexivity |].
  destruct Hin as [-> | Hin]; [congruence | eauto].
Qed.

Lemma scanRows_inv (bound : Q) (dp : list (list float)) (xs : list Z) (r : list (Z * Z)) :
  scanRows bound dp xs = Some r ->
  r = filter (passes bound dp) (flat_map (fun x => map (fun y => (x, y)) (Py.range x)) xs).
Proof.
  revert r. induction xs as [| x xs IH]; intros r Hs; simpl in Hs.
  - now inversion Hs.
  - unfold Py.bind in Hs.
    destruct (scanColumns bound dp x (Py.range x)) as [here |] eqn:Ehere; [| discriminate].
    destruct (scanRows bound dp xs) as [rest |]; [| discriminate].
    inversion Hs; subst. simpl. rewrite filter_app, filter_pairs.
    now rewrite (scanColumns_inv _ _ _ _ _ Ehere), (IH rest eq_refl).
Qed.

Lemma scanRows_total (bound : Q) (dp : list (list float)) (xs : list Z) :
  (forall x y, In x xs -> In y (Py.range x) -> entry dp x y <> None) ->
  exists r, scanRows bound dp xs = Some r.
Proof.
  induction xs as [| x xs IH]; intros Hall; simpl.
  - now exists [].
  - destruct IH as [rest Hrest]; [intros; eapply Hall; [now right | assumption] |].
    destruct (scanColumns_total bound dp x (Py.range x)) as [here Hhere];
      [intros; apply Hall; [now left | assumption] |].
    rewrite Hhere, Hrest. simpl. eauto.
Qed.

Lemma scanRows_raises (bound : Q) (dp : list (list float)) (xs : list Z) :
  (exists x y, In x xs /\ In y (Py.range x) /\ entry dp x y = None) ->
  scanRows bound dp xs = None.
Proof.
  induction xs as [| x xs IH]; intros [x0 [y0 [Hx [Hy Hn]]]]; [destruct Hx |].
  simpl. destruct Hx as [-> | Hx].
  - rewrite scanColumns_raises; [reflexivity | eauto].
  - rewrite IH; [| eauto]. unfold Py.bind.
    now destruct (scanColumns bound dp x (Py.range x)).
Qed.

Lemma lonZeros_inv (bound : Q) (u : DataArray) (zeros : list (Z * Z)) :
  lonZeros bound u = Some zeros ->
  zeros = filter (passes bound (dpdlon u)) (cells (Py.len (dpdlon u))).
Proof. apply scanRows_inv. Qed.

Lemma passes_lonStationary (bound : Q) (u : DataArray) (c : Z * Z) :
  rectangular u -> In c (cells (H u)) ->
  passes bound (dpdlon u) c = lonStationary bound u (fst c) (snd c).
Proof.
  intros Hr Hc. destruct c as [i j]. apply in_cells in Hc. simpl.
  unfold passes, lonStationary. simpl.
  rewrite entry_nonneg by lia. now rewrite cell_dpdlon by (auto; lia).
Qed.

(** On a grid with no more rows than columns the scan of stage 1 ends,
    and keeps the visited cells that pass the test. *)
Lemma lonZeros_wide (bound : Q) (u : DataArray) :
  rectangular u -> H u <= W u ->
  lonZeros bound u =
  Some (filter (fun c => lonStationary bound u (fst c) (snd c)) (cells (H u))).
Proof.
  intros Hr Hw.
  destruct (scanRows_total bound (dpdlon u) (Py.range (Py.len (dpdlon u)))) as [r Hs].
  - intros x y Hx Hy. apply in_range in Hx. apply in_range in Hy.
    rewrite len_dpdlon in Hx by assumption.
    rewrite entry_nonneg by lia. rewrite cell_dpdlon by (auto; lia).
    apply dF_dlon_defined; auto; lia.
  - unfold lonZeros. rewrite Hs. f_equal.
    rewrite (lonZeros_inv bound u r Hs), len_dpdlon by assumption.
    apply filter_ext_in. intros c Hc. now apply passes_lonStationary.
Qed.

(** On a grid with more rows than columns the scan reads past the last
    column of the derivative: the [IndexError] leaves the function. *)
Lemma lonZeros_tall (bound : Q) (u : DataArray) :
  rectangular u -> 0 < W u < H u -> lonZeros bound u = None.
Proof.
  intros Hr Hw. apply scanRows_raises.
  exists (W u), (W u - 1). rewrite len_dpdlon by assumption.
  repeat split.
  - apply in_range. lia.
  - apply in_range. lia.
  - rewrite entry_nonneg by lia. rewrite cell_dpdlon by (auto; lia).
    unfold dF_dlon.
    destruct (F u (W u) (W u - 1 + 1)) as [a |] eqn:Ea; [| reflexivity].
    apply F_Some_bounds in Ea; [lia | assumption].
Qed.

Lemma lonZeros_cells (bound : Q) (u : DataArray) (zeros : list (Z * Z)) (i j : Z) :
  lonZeros bound u = Some zeros -> In (i, j) zeros -> 0 <= j < i.
Proof.
  intros Hz Hin. rewrite (lonZeros_inv _ _ _ Hz) in Hin.
  apply filter_In in Hin. destruct Hin as [Hin _]. apply in_cells in Hin. lia.
Qed.

(** ** Stage 2 *)

Lemma latZeros_kept (bound : Q) (u : DataArray) (latdata : list (list Q)) (zeros : list (Z * Z)) :
  fst (latZeros bound u latdata zeros) =
  filter (fun c => match dpdlat u latdata (fst c) (snd c) with
                   | Some d => Np.abs_le d bound
                   | None => false
                   end) zeros.
Proof.
  induction zeros as [| [x y] zeros IH]; simpl; [reflexivity |].
  destruct (latZeros bound u latdata zeros) as [locs printed]. simpl in IH.
  destruct (dpdlat u latdata x y) as [d |]; [| exact IH].
  destruct (Np.abs_le d bound); simpl; now rewrite IH.
Qed.

Lemma latZeros_printed (bound : Q) (u : DataArray) (latdata : list (list Q)) (zeros : list (Z * Z)) :
  snd (latZeros bound u latdata zeros) =
  map (fun c => (fst c + 1, snd c))
      (filter (fun c => isNone (dpdlat u latdata (fst c) (snd c))) zeros).
Proof.
  induction zeros as [| [x y] zeros IH]; simpl; [reflexivity |].
  destruct (latZeros bound u latdata zeros) as [locs printed]. simpl in IH.
  destruct (dpdlat u latdata x y) as [d |]; simpl; [| now rewrite IH].
  now destruct (Np.abs_le d bound).
Qed.

Lemma dpdlat_nonneg (u : DataArray) (x y : Z) :
  0 <= x -> 0 <= y -> dpdlat u (latGrid u) x y = dF_dlat u x y.
Proof.
  intros Hx Hy. unfold dpdlat, dF_dlat, F, cell, Py.bind.
  rewrite !(getitem_nonneg (data u)), !(getitem_nonneg (latGrid u)) by lia.
  destruct (at_index (data u) (x + 1)) as [r1 |]; [| reflexivity].
  rewrite (getitem_nonneg r1) by lia.
  destruct (at_index r1 y) as [a |]; [| reflexivity].
  destruct (at_index (data u) x) as [r0 |]; [| reflexivity].
  rewrite (getitem_nonneg r0) by lia.
  destruct (at_index r0 y) as [b |]; [| reflexivity].
  destruct (at_index (latGrid u) (x + 1)) as [l1 |]; [| reflexivity].
  rewrite (getitem_nonneg l1) by lia.
  destruct (at_index l1 y) as [la |]; [| reflexivity].
  destruct (at_index (latGrid u) x) as [l0 |]; [| reflexivity].
  rewrite (getitem_nonneg l0) by lia.
  now destruct (at_index l0 y).
Qed.

Lemma arraylocations_filter (bound : Q) (u : DataArray) (zeros : list (Z * Z)) :
  lonZeros bound u = Some zeros ->
  arraylocations bound u =
  Some (filter (fun c => latStationary bound u (fst c) (snd c)) zeros).
Proof.
  intros Hz. unfold arraylocations. rewrite Hz. simpl. f_equal.
  fold (latGrid u). rewrite latZeros_kept. apply filter_ext_in.
  intros [i j] Hin. pose proof (lonZeros_cells _ _ _ _ _ Hz Hin) as Hij. simpl.
  unfold latStationary. now rewrite dpdlat_nonneg by lia.
Qed.

Lemma arraylocations_cells (bound : Q) (u : DataArray) (locs : list (Z * Z)) (i j : Z) :
  arraylocations bound u = Some locs -> In (i, j) locs -> 0 <= j < i.
Proof.
  intros Hl Hin. unfold arraylocations, Py.bind in Hl.
  destruct (lonZeros bound u) as [zeros |] eqn:Hz; [| discriminate].
  inversion Hl; subst. rewrite latZeros_kept in Hin. apply filter_In in Hin.
  destruct Hin as [Hin _]. eapply lonZeros_cells; eassumption.
Qed.

Lemma dF_dlat_bounds (u : DataArray) (i j : Z) (d : float) :
  rectangular u -> dF_dlat u i j = Some d -> 0 <= i /\ i + 1 < H u /\ 0 <= j < W u.
Proof.
  intros Hr Hd. unfold dF_dlat in Hd.
  destruct (F u (i + 1) j) as [a |] eqn:Ea; [| discriminate].
  destruct (F u i j) as [b |] eqn:Eb; [| discriminate].
  apply F_Some_bounds in Ea; [| assumption]. apply F_Some_bounds in Eb; [| assumption]. lia.
Qed.

(** The latitude grid holds [lat[i]] in every column of row [i]. *)
Lemma cell_latGrid (u : DataArray) (i j : Z) :
  0 <= j < W u -> cell (latGrid u) i j = at_index (lat u) i.
Proof.
  intros Hj. rewrite latGrid_rows. unfold cell, at_index.
  destruct (i <? 0); [reflexivity |].
  rewrite nth_error_map. destruct (nth_error (lat u) (Z.to_nat i)) as [l |]; [| reflexivity].
  simpl. destruct (j <? 0) eqn:E; [apply Z.ltb_lt in E; lia |].
  rewrite nth_error_map.
  destruct (nth_error (lon u) (Z.to_nat j)) eqn:En; [reflexivity |].
  apply nth_error_None in En. unfold W, Py.len in Hj. lia.
Qed.

(** What the test [abs(n / d) <= bound] means on the rationals. *)
Lemma abs_le_divide (n d bound : Q) :
  Np.abs_le (Np.divide n d) bound = true <-> ~ (d == 0)%Q /\ (Qabs (n / d) <= bound)%Q.
Proof.
  unfold Np.divide. destruct (Qeq_bool d 0) eqn:E.
  - apply Qeq_bool_iff in E. simpl. split; [discriminate | intros [Hd _]; contradiction].
  - simpl. rewrite Qle_bool_iff. split.
    + intros Hle. split; [| exact Hle]. intros Hd. apply Qeq_bool_iff in Hd. congruence.
    + intros [_ Hle]. exact Hle.
Qed.

(** ** Stage 3 *)

Lemma minima_filter (u : DataArray) (step : Z) (locs : list (Z * Z)) :
  minima u step locs = map translate (filter (confirmed u step) locs).
Proof.
  induction locs as [| [x y] locs IH]; simpl; [reflexivity |].
  unfold confirmed at 1. simpl.
  destruct (isMinimum u step x y) as [[|] |]; simpl; now rewrite IH.
Qed.

(** The lookup of the neighbour below reads the row [rowBelow] whenever
    the neighbour above is in range. *)
Lemma getitem_rowBelow (u : DataArray) (step x : Z) (ra : list Q) :
  rectangular u -> 0 <= step -> 0 <= x ->
  at_index (data u) (x + step) = Some ra ->
  (data u).[x - step] = at_index (data u) (rowBelow u step x).
Proof.
  intros [Hrows _] Hs Hx Ha. apply at_index_Some in Ha. unfold rowBelow.
  destruct (x - step <? 0) eqn:E.
  - apply Z.ltb_lt in E. rewrite getitem_negative by lia. now rewrite Hrows.
  - apply Z.ltb_ge in E. now apply getitem_nonneg.
Qed.

Lemma confirmed_strictMinimum (u : DataArray) (step x y : Z) :
  rectangular u -> 0 <= step -> 0 <= x -> 0 <= y ->
  confirmed u step (x, y) = strictMinimum u step x y.
Proof.
  intros Hr Hs Hx Hy. unfold confirmed, isMinimum, strictMinimum, F, cell, Py.bind. simpl.
  rewrite !(getitem_nonneg (data u) (x + step)), !(getitem_nonneg (data u) x) by lia.
  destruct (at_index (data u) (x + step)) as [ra |] eqn:Ea; [| reflexivity].
  rewrite (getitem_rowBelow u step x ra) by assumption.
  rewrite (getitem_nonneg ra) by lia.
  destruct (at_index ra y) as [above |]; [| reflexivity].
  destruct (at_index (data u) x) as [r0 |].
  - rewrite !(getitem_nonneg r0) by lia.
    destruct (at_index r0 y) as [here |].
    + destruct (Np.gt above here).
      * destruct (at_index (data u) (rowBelow u step x)) as [rb |]; [| reflexivity].
        rewrite (getitem_nonneg rb) by lia.
        destruct (at_index rb y) as [below |]; [| reflexivity].
        now destruct (Np.gt below here).
      * destruct (at_index (data u) (rowBelow u step x)) as [rb |]; [| reflexivity].
        now destruct (at_index rb y).
    + destruct (at_index (data u) (rowBelow u step x)) as [rb |]; [| reflexivity].
      now destruct (at_index rb y).
  - destruct (at_index (data u) (rowBelow u step x)) as [rb |]; [| reflexivity].
    now destruct (at_index rb y).
Qed.

Lemma gt_true (a b : Q) : Np.gt a b = true <-> (b < a)%Q.
Proof.
  unfold Np.gt. rewrite negb_true_iff. split.
  - intros Hn. apply Qnot_le_lt. intros Hle. apply Qle_bool_iff in Hle. congruence.
  - intros Hlt. destruct (Qle_bool a b) eqn:E; [| reflexivity].
    apply Qle_bool_iff in E. exfalso. eapply Qlt_not_le; eassumption.
Qed.

(** ** The function *)

Lemma findLocalMinimaWith_result (bound : Q) (step : Z) (w : World) :
  fst (findLocalMinimaWith bound step w) =
  option_map (minima (U w) step) (arraylocations bound (U w)).
Proof.
  unfold findLocalMinimaWith, arraylocations.
  destruct (lonZeros bound (U w)) as [zeros |]; [| reflexivity]. simpl.
  now destruct (latZeros bound (U w) (sliceTupleArray (makeCoordArr (U w)) 0) zeros).
Qed.

Lemma findLocalMinimaWith_world (bound : Q) (step : Z) (w : World) :
  snd (findLocalMinimaWith bound step w) =
  match lonZeros bound (U w) with
  | None => w
  | Some zeros =>
      {| U := U w;
         stdout := stdout w ++ snd (latZeros bound (U w) (latGrid (U w)) zeros) |}
  end.
Proof.
  unfold findLocalMinimaWith, latGrid.
  destruct (lonZeros bound (U w)) as [zeros |]; [| reflexivity].
  now destruct (latZeros bound (U w) (sliceTupleArray (makeCoordArr (U w)) 0) zeros).
Qed.

(** The elements of the output come from cells below the diagonal. *)
Lemma output_cells (bound : Q) (step : Z) (w : World) (out : list (Z * Z)) (p : Z * Z) :
  fst (findLocalMinimaWith bound step w) = Some out -> In p out ->
  exists i j, p = (- i, j - 180) /\ 0 <= j < i.
Proof.
  rewrite findLocalMinimaWith_result.
  destruct (arraylocations bound (U w)) as [locs |] eqn:Hl; [| discriminate].
  simpl. intros Ho Hin. inversion Ho; subst. rewrite minima_filter in Hin.
  apply in_map_iff in Hin. destruct Hin as [[i j] [Hp Hin]].
  apply filter_In in Hin. destruct Hin as [Hin _].
  exists i, j. split; [now rewrite <- Hp |]. eapply arraylocations_cells; eassumption.
Qed.

(** ** The order of the scan *)

Lemma sorted_app {A : Type} (R : A -> A -> Prop) (l1 l2 : list A) :
  StronglySorted R l1 -> StronglySorted R l2 ->
  (forall a b, In a l1 -> In b l2 -> R a b) ->
  StronglySorted R (l1 ++ l2).
Proof.
  intros H1 H2 Hcross. induction H1 as [| a l1 Hs IH Hall]; simpl; [exact H2 |].
  constructor.
  - apply IH. intros x y Hx Hy. apply Hcross; [now right | exact Hy].
  - apply Forall_app. split; [exact Hall |].
    apply Forall_forall. intros b Hb. apply Hcross; [now left | exact Hb].
Qed.

Lemma sorted_filter {A : Type} (R : A -> A -> Prop) (f : A -> bool) (l : list A) :
  StronglySorted R l -> StronglySorted R (filter f l).
Proof.
  intros Hs. induction Hs as [| a l Hs IH Hall]; simpl; [constructor |].
  destruct (f a); [| exact IH]. constructor; [exact IH |].
  apply Forall_forall. intros b Hb. apply filter_In in Hb.
  rewrite Forall_forall in Hall. now apply Hall.
Qed.

Lemma sorted_map {A B : Type} (R : A -> A -> Prop) (S : B -> B -> Prop) (f : A -> B)
    (l : list A) :
  (forall a b, R a b -> S (f a) (f b)) ->
  StronglySorted R l -> StronglySorted S (map f l).
Proof.
  intros Hf Hs. induction Hs as [| a l Hs IH Hall]; simpl; constructor; [exact IH |].
  apply Forall_forall. intros b Hb. apply in_map_iff in Hb. destruct Hb as [c [<- Hc]].
  rewrite Forall_forall in Hall. apply Hf. now apply Hall.
Qed.

Lemma sorted_NoDup {A : Type} (R : A -> A -> Prop) (l : list A) :
  (forall a, ~ R a a) -> StronglySorted R l -> NoDup l.
Proof.
  intros Hirr Hs. induction Hs as [| a l Hs IH Hall]; constructor; [| exact IH].
  intros Hin. rewrite Forall_forall in Hall. apply (Hirr a). now apply Hall.
Qed.

Lemma sorted_seq (a n : nat) : StronglySorted lt (seq a n).
Proof.
  revert a. induction n as [| n IH]; intros a; simpl; constructor; [apply IH |].
  apply Forall_forall. intros b Hb. apply in_seq in Hb. lia.
Qed.

Lemma sorted_range (n : Z) : StronglySorted Z.lt (Py.range n).
Proof.
  unfold Py.range. apply (sorted_map lt); [intros; lia | apply sorted_seq].
Qed.

Lemma sorted_rows (xs : list Z) :
  StronglySorted Z.lt xs ->
  StronglySorted rowMajor (flat_map (fun i => map (fun j => (i, j)) (Py.range i)) xs).
Proof.
  intros Hs. induction Hs as [| x xs Hs IH Hall]; simpl; [constructor |].
  apply sorted_app.
  - apply (sorted_map Z.lt); [| apply sorted_range].
    intros a b Hab. right. simpl. split; [reflexivity | exact Hab].
  - exact IH.
  - intros p q Hp Hq. apply in_map_iff in Hp. destruct Hp as [j [<- _]].
    apply in_flat_map in Hq. destruct Hq as [x' [Hx' Hq]].
    apply in_map_iff in Hq. destruct Hq as [j' [<- _]].
    left. simpl. rewrite Forall_forall in Hall. now apply Hall.
Qed.

Lemma sorted_cells (h : Z) : StronglySorted rowMajor (cells h).
Proof. apply sorted_rows, sorted_range. Qed.

Lemma rowMajor_irrefl (p : Z * Z) : ~ rowMajor p p.
Proof. unfold rowMajor. lia. Qed.

Lemma sorted_lonZeros (bound : Q) (u : DataArray) (zeros : list (Z * Z)) :
  lonZeros bound u = Some zeros -> StronglySorted rowMajor zeros.
Proof.
  intros Hz. rewrite (lonZeros_inv _ _ _ Hz). apply sorted_filter, sorted_cells.
Qed.

Lemma sorted_arraylocations (bound : Q) (u : DataArray) (locs : list (Z * Z)) :
  arraylocations bound u = Some locs -> StronglySorted rowMajor locs.
Proof.
  unfold arraylocations, Py.bind. intros Hl.
  destruct (lonZeros bound u) as [zeros |] eqn:Hz; [| discriminate].
  inversion Hl; subst. rewrite latZeros_kept.
  apply sorted_filter. eapply sorted_lonZeros; eassumption.
Qed.

Lemma translate_injective (p q : Z * Z) : translate p = translate q -> p = q.
Proof.
  destruct p as [a b], q as [c d]. unfold translate. simpl.
  intros Heq. inversion Heq. f_equal; lia.
Qed.

(** ** The tests of stages 1 and 2, on the rationals *)

Lemma lonStationary_spec (eps : Q) (u : DataArray) (i j : Z) :
  lonStationary eps u i j = true <->
  exists a b la lb,
    F u i (j + 1) = Some a /\ F u i j = Some b /\
    at_index (lon u) (j + 1) = Some la /\ at_index (lon u) j = Some lb /\
    ~ (la - lb == 0)%Q /\ (Qabs ((a - b) / (la - lb)) <= eps)%Q.
Proof.
  unfold lonStationary, dF_dlon. split.
  - destruct (F u i (j + 1)) as [a |]; [| discriminate].
    destruct (F u i j) as [b |]; [| discriminate].
    destruct (at_index (lon u) (j + 1)) as [la |]; [| discriminate].
    destruct (at_index (lon u) j) as [lb |]; [| discriminate].
    intros Ht. apply abs_le_divide in Ht. exists a, b, la, lb. tauto.
  - intros [a [b [la [lb [-> [-> [-> [-> Ht]]]]]]]]. now apply abs_le_divide.
Qed.

Lemma latStationary_spec (eps : Q) (u : DataArray) (i j : Z) :
  latStationary eps u i j = true <->
  exists a b la lb,
    F u (i + 1) j = Some a /\ F u i j = Some b /\
    cell (latGrid u) (i + 1) j = Some la /\ cell (latGrid u) i j = Some lb /\
    ~ (la - lb == 0)%Q /\ (Qabs ((a - b) / (la - lb)) <= eps)%Q.
Proof.
  unfold latStationary, dF_dlat. split.
  - destruct (F u (i + 1) j) as [a |]; [| discriminate].
    destruct (F u i j) as [b |]; [| discriminate].
    destruct (cell (latGrid u) (i + 1) j) as [la |]; [| discriminate].
    destruct (cell (latGrid u) i j) as [lb |]; [| discriminate].
    intros Ht. apply abs_le_divide in Ht. exists a, b, la, lb. tauto.
  - intros [a [b [la [lb [-> [-> [-> [-> Ht]]]]]]]]. now apply abs_le_divide.
Qed.

Lemma latStationary_in_bounds (eps : Q) (u : DataArray) (i j : Z) :
  rectangular u -> latStationary eps u i j = true -> i + 1 < H u.
Proof.
  intros Hr Ht. unfold latStationary in Ht.
  destruct (dF_dlat u i j) as [d |] eqn:Ed; [| discriminate].
  apply (dF_dlat_bounds u i j d Hr Ed).
Qed.

(** ** Stage 1: the columns that are scanned *)

(** C1, as amended: on a grid on which the scan of stage 1 ends (no more
    rows than columns), the candidates of stage 1 are exactly the cells
    [(i, j)] with [0 <= j < i], [i < H] and
    [|(F[i][j+1] - F[i][j]) / (lon[j+1] - lon[j])| <= bound]: row [i] is
    scanned over the columns [0 .. i-1], the column [i] excluded. *)
Theorem stage1_candidates (bound : Q) (u : DataArray) :
  well_formed u -> H u <= W u ->
  exists zeros,
    lonZeros bound u = Some zeros /\
    forall i j,
      In (i, j) zeros <->
      (0 <= j < i /\ i < H u /\ lonStationary bound u i j = true).
Proof.
  intros [Hr _] Hw. eexists. split; [apply lonZeros_wide; assumption |].
  intros i j. rewrite filter_In, in_cells. simpl. tauto.
Qed.

(** ** Stage 2: the candidates that are retained *)

(** C8: a candidate [(i, j)] of stage 1 is retained exactly when row
    [i + 1] is in the grid and
    [|(F[i+1][j] - F[i][j]) / (lat[i+1][j] - lat[i][j])| <= bound], the
    latitudes being read in the grid of coordinate pairs; the other
    candidates are dropped and the scan goes on: the retained list is the
    list of candidates filtered by that test. *)
Theorem stage2_retained (bound : Q) (u : DataArray) (zeros : list (Z * Z)) :
  well_formed u ->
  lonZeros bound u = Some zeros ->
  arraylocations bound u =
    Some (filter (fun c => latStationary bound u (fst c) (snd c)) zeros) /\
  forall locs, arraylocations bound u = Some locs ->
  forall i j,
    In (i, j) locs <->
    (In (i, j) zeros /\ i + 1 < H u /\ latStationary bound u i j = true).
Proof.
  intros [Hr _] Hz. pose proof (arraylocations_filter bound u zeros Hz) as Hl.
  split; [exact Hl |]. intros locs Hlocs. rewrite Hl in Hlocs. inversion Hlocs; subst.
  intros i j. rewrite filter_In. simpl. split.
  - intros [Hin Ht]. repeat split; try assumption.
    eapply latStationary_in_bounds; eassumption.
  - tauto.
Qed.

(** ** Stage 3: the minima that are emitted *)

Lemma pair_eq_dec (p q : Z * Z) : {p = q} + {p <> q}.
Proof. decide equality; apply Z.eq_dec. Defined.

Lemma strictMinimum_intro (u : DataArray) (step i j : Z) (above below here : Q) :
  F u (i + step) j = Some above -> F u (rowBelow u step i) j = Some below ->
  F u i j = Some here -> (here < above)%Q -> (here < below)%Q ->
  strictMinimum u step i j = true.
Proof.
  intros Ha Hb Hh Hlt1 Hlt2. unfold strictMinimum. rewrite Ha, Hb, Hh.
  apply andb_true_iff. split; now apply gt_true.
Qed.

Lemma strictMinimum_elim (u : DataArray) (step i j : Z) :
  strictMinimum u step i j = true ->
  exists above below here,
    F u (i + step) j = Some above /\ F u (rowBelow u step i) j = Some below /\
    F u i j = Some here /\ (here < above)%Q /\ (here < below)%Q.
Proof.
  unfold strictMinimum.
  destruct (F u (i + step) j) as [above |]; [| discriminate].
  destruct (F u (rowBelow u step i) j) as [below |]; [| discriminate].
  destruct (F u i j) as [here |]; [| discriminate].
  intros Ht. apply andb_true_iff in Ht. destruct Ht as [H1 H2].
  exists above, below, here. repeat split; try reflexivity; now apply gt_true.
Qed.

Lemma output_filter (bound : Q) (step : Z) (w : World) (locs : list (Z * Z)) :
  rectangular (U w) -> 0 <= step ->
  arraylocations bound (U w) = Some locs ->
  fst (findLocalMinimaWith bound step w) =
  Some (map translate (filter (fun c => strictMinimum (U w) step (fst c) (snd c)) locs)).
Proof.
  intros Hr Hs Hl. rewrite findLocalMinimaWith_result, Hl. simpl. f_equal.
  rewrite minima_filter. f_equal. apply filter_ext_in. intros [i j] Hin.
  pose proof (arraylocations_cells _ _ _ _ _ Hl Hin) as Hij. simpl.
  apply confirmed_strictMinimum; auto; lia.
Qed.

(** The output is the list of retained candidates, in the row-major
    order of the scan, filtered by the test of stage 3 as the array reads
    it and translated to [(-i, j - 180)]: the neighbour above at row
    [i + step], the neighbour below at [rowBelow], which is [i - step]
    when that row is in the grid and [H + (i - step)] otherwise.  So every
    element of the output is [(-i, j - 180)] for a retained candidate that
    passes this test, and a retained candidate with both neighbours in the
    grid that is strictly below both has exactly one occurrence in the
    output. *)
Theorem stage3_output (bound : Q) (step : Z) (w : World) (locs : list (Z * Z)) :
  well_formed (U w) -> 0 <= step ->
  arraylocations bound (U w) = Some locs ->
  exists out,
    fst (findLocalMinimaWith bound step w) = Some out /\
    out = map translate
            (filter (fun c => strictMinimum (U w) step (fst c) (snd c)) locs) /\
    StronglySorted rowMajor locs /\
    (forall p, In p out ->
       exists i j, p = (- i, j - 180) /\ In (i, j) locs /\
                   strictMinimum (U w) step i j = true) /\
    (forall i j above below here,
       In (i, j) locs -> 0 <= i - step -> i + step < H (U w) ->
       F (U w) (i + step) j = Some above ->
       F (U w) (i - step) j = Some below ->
       F (U w) i j = Some here ->
       (here < above)%Q -> (here < below)%Q ->
       count_occ pair_eq_dec out (- i, j - 180) = 1%nat).
Proof.
  intros [Hr _] Hs Hl. eexists. split; [apply output_filter; eassumption |].
  split; [reflexivity |].
  pose proof (sorted_arraylocations _ _ _ Hl) as Hsorted.
  split; [exact Hsorted |]. split.
  - intros p Hin. apply in_map_iff in Hin. destruct Hin as [[i j] [<- Hin]].
    apply filter_In in Hin. destruct Hin as [Hin Ht]. exists i, j. auto.
  - intros i j above below here Hin Hlow Hup Ha Hb Hh Hlt1 Hlt2.
    apply NoDup_count_occ'.
    + apply Injective_map_NoDup; [intros p q; apply translate_injective |].
      apply NoDup_filter. eapply sorted_NoDup; [apply rowMajor_irrefl | exact Hsorted].
    + change (- i, j - 180) with (translate (i, j)). apply in_map.
      apply filter_In. split; [exact Hin |]. simpl.
      apply (strictMinimum_intro _ _ _ _ above below here); try assumption.
      unfold rowBelow. destruct (i - step <? 0) eqn:E; [apply Z.ltb_lt in E; lia |].
      exact Hb.
Qed.


(** The neighbour above is different: when row [i + step] is outside the
    grid the lookup raises, the [except] branch runs, and the candidate is
    not emitted. *)
Lemma upper_overrun_skipped (bound : Q) (step : Z) (w : World) (out : list (Z * Z))
    (i j : Z) :
  well_formed (U w) -> 0 <= step ->
  fst (findLocalMinimaWith bound step w) = Some out ->
  H (U w) <= i + step -> ~ In (- i, j - 180) out.
Proof.
  intros [Hr _] Hs Ho Hup Hin.
  destruct (arraylocations bound (U w)) as [locs |] eqn:Hl;
    [| rewrite findLocalMinimaWith_result, Hl in Ho; discriminate].
  rewrite (output_filter bound step w locs Hr Hs Hl) in Ho. inversion Ho; subst.
  apply in_map_iff in Hin. destruct Hin as [c [Heq Hc]].
  apply (translate_injective c (i, j)) in Heq. subst c.
  apply filter_In in Hc. destruct Hc as [_ Ht]. simpl in Ht.
  apply strictMinimum_elim in Ht. destruct Ht as [above [_ [_ [Ha _]]]].
  apply (F_Some_bounds _ _ _ _ Hr) in Ha. lia.
Qed.

(** ** Determinism and effects *)

Lemma findLocalMinimaWith_U (bound : Q) (step : Z) (w : World) :
  U (snd (findLocalMinimaWith bound step w)) = U w.
Proof.
  rewrite findLocalMinimaWith_world. now destruct (lonZeros bound (U w)).
Qed.

(** C9: the result is a function of the data array, of the bound and of
    the step alone: two calls on the same data return the same sequence,
    whatever was printed before, and a second call after a first one
    returns what the first one returned. *)
Theorem findLocalMinima_deterministic (bound : Q) (step : Z) (u : DataArray)
    (printed1 printed2 : list (Z * Z)) :
  fst (findLocalMinimaWith bound step {| U := u; stdout := printed1 |}) =
  fst (findLocalMinimaWith bound step {| U := u; stdout := printed2 |}) /\
  fst (findLocalMinimaWith bound step
         (snd (findLocalMinimaWith bound step {| U := u; stdout := printed1 |}))) =
  fst (findLocalMinimaWith bound step {| U := u; stdout := printed1 |}).
Proof.
  split.
  - now rewrite !findLocalMinimaWith_result.
  - rewrite (findLocalMinimaWith_result bound step (snd _)).
    rewrite findLocalMinimaWith_U. now rewrite findLocalMinimaWith_result.
Qed.

Lemma passes_column (bound : Q) (u : DataArray) (i j : Z) :
  rectangular u -> 0 <= j < i -> i < H u ->
  passes bound (dpdlon u) (i, j) = true -> j < W u.
Proof.
  intros Hr Hj Hi Hp. unfold passes in Hp. simpl in Hp.
  rewrite entry_nonneg in Hp by lia. rewrite cell_dpdlon in Hp by (auto; lia).
  unfold dF_dlon in Hp.
  destruct (F u i (j + 1)) as [a |]; [| discriminate].
  destruct (F u i j) as [b |] eqn:Eb; [| discriminate].
  apply (F_Some_bounds u i j b Hr Eb).
Qed.

Lemma dF_dlat_None (u : DataArray) (i j : Z) :
  rectangular u -> 0 <= i < H u -> 0 <= j < W u ->
  isNone (dF_dlat u i j) = (H u <=? i + 1).
Proof.
  intros Hr Hi Hj. unfold dF_dlat. destruct (H u <=? i + 1) eqn:E.
  - apply Z.leb_le in E. destruct (F u (i + 1) j) as [a |] eqn:Ea; [| reflexivity].
    apply F_Some_bounds in Ea; [lia | assumption].
  - apply Z.leb_gt in E.
    destruct (F_defined u (i + 1) j Hr) as [a ->]; [lia | lia |].
    destruct (F_defined u i j Hr) as [b ->]; [lia | lia |].
    rewrite !cell_latGrid by assumption.
    destruct (at_index_defined (lat u) (i + 1)) as [la ->]; [unfold H in *; lia |].
    destruct (at_index_defined (lat u) i) as [lb ->]; [unfold H in *; lia |].
    reflexivity.
Qed.

(** C10, as amended: the call leaves the data array (the field and its
    coordinates) as it was; besides returning its sequence it prints: one
    line [(i + 1, j)] for each candidate [(i, j)] of stage 1 in the last
    row of the grid, whose forward difference reads row [i + 1 = H]. *)
Theorem findLocalMinima_frame (bound : Q) (step : Z) (w : World) :
  well_formed (U w) ->
  U (snd (findLocalMinimaWith bound step w)) = U w /\
  match lonZeros bound (U w) with
  | Some zeros =>
      stdout (snd (findLocalMinimaWith bound step w)) =
      stdout w ++ map (fun c => (fst c + 1, snd c))
                      (filter (fun c => H (U w) <=? fst c + 1) zeros)
  | None => stdout (snd (findLocalMinimaWith bound step w)) = stdout w
  end.
Proof.
  intros [Hr _]. split; [apply findLocalMinimaWith_U |].
  rewrite findLocalMinimaWith_world.
  destruct (lonZeros bound (U w)) as [zeros |] eqn:Hz; [| reflexivity].
  simpl. f_equal. rewrite latZeros_printed. f_equal.
  apply filter_ext_in. intros [i j] Hin. simpl.
  pose proof (lonZeros_cells _ _ _ _ _ Hz Hin) as Hij.
  rewrite (lonZeros_inv _ _ _ Hz), len_dpdlon in Hin by assumption.
  apply filter_In in Hin. destruct Hin as [Hc Hp]. apply in_cells in Hc.
  rewrite dpdlat_nonneg by lia. apply dF_dlat_None; [assumption | lia |].
  split; [lia |]. eapply passes_column; try eassumption; lia.
Qed.

(** ** Constant and monotone fields *)

Lemma getitem_In {A : Type} (a : list A) (i : Z) (v : A) : a.[i] = Some v -> In v a.
Proof.
  unfold Py.getitem.
  destruct ((0 <=? i) && (i <? Py.len a)); [apply nth_error_In |].
  destruct ((- Py.len a <=? i) && (i <? 0)); [apply nth_error_In | discriminate].
Qed.

Lemma confirmed_constant (u : DataArray) (step : Z) (c : Z * Z) :
  constant u -> confirmed u step c = false.
Proof.
  intros [v Hall]. unfold confirmed, isMinimum, Py.bind.
  destruct ((data u).[fst c + step]) as [ra |] eqn:Era; [| reflexivity].
  destruct (ra.[snd c]) as [above |] eqn:Ea; [| reflexivity].
  destruct ((data u).[fst c]) as [r0 |] eqn:Er0; [| reflexivity].
  destruct (r0.[snd c]) as [here |] eqn:Eh; [| reflexivity].
  rewrite Forall_forall in Hall.
  assert (Hab : (above <= here)%Q).
  { pose proof (Hall ra (getitem_In _ _ _ Era)) as Hra.
    pose proof (Hall r0 (getitem_In _ _ _ Er0)) as Hr0.
    rewrite Forall_forall in Hra, Hr0.
    rewrite (Hra above (getitem_In _ _ _ Ea)), (Hr0 here (getitem_In _ _ _ Eh)).
    apply Qle_refl. }
  apply Qle_bool_iff in Hab. unfold Np.gt. now rewrite Hab.
Qed.

Lemma filter_none {A : Type} (f : A -> bool) (l : list A) :
  (forall x, f x = false) -> filter f l = [].
Proof.
  intros Hf. induction l as [| x l IH]; simpl; [reflexivity |]. now rewrite Hf.
Qed.

(** On a grid with no more rows than columns a constant field has no
    minimum: the comparisons of stage 3 are strict. *)
Lemma constant_field_wide (bound : Q) (step : Z) (w : World) :
  well_formed (U w) -> H (U w) <= W (U w) -> constant (U w) ->
  fst (findLocalMinimaWith bound step w) = Some [].
Proof.
  intros [Hr _] Hw Hc. rewrite findLocalMinimaWith_result.
  rewrite (arraylocations_filter bound (U w) _ (lonZeros_wide bound (U w) Hr Hw)).
  simpl. f_equal. rewrite minima_filter, filter_none; [reflexivity |].
  intros c. now apply confirmed_constant.
Qed.

(** On a field that does not decrease along the latitude, a minimum is
    only ever emitted for a row [i < step], where the lookup of the
    neighbour below reads a row counted from the end of the grid. *)
Lemma monotone_output_wraps (bound : Q) (step : Z) (w : World) (out : list (Z * Z))
    (p : Z * Z) :
  well_formed (U w) -> 0 <= step -> nondecreasingAlongLat (U w) ->
  fst (findLocalMinimaWith bound step w) = Some out -> In p out ->
  exists i j, p = (- i, j - 180) /\ 0 <= i < step.
Proof.
  intros [Hr _] Hs Hmono Ho Hin.
  destruct (arraylocations bound (U w)) as [locs |] eqn:Hl;
    [| rewrite findLocalMinimaWith_result, Hl in Ho; discriminate].
  rewrite (output_filter bound step w locs Hr Hs Hl) in Ho. inversion Ho; subst.
  apply in_map_iff in Hin. destruct Hin as [[i j] [<- Hin]].
  apply filter_In in Hin. destruct Hin as [Hin Ht]. simpl in Ht.
  pose proof (arraylocations_cells _ _ _ _ _ Hl Hin) as Hij.
  exists i, j. split; [reflexivity |]. split; [lia |].
  destruct (Z.lt_ge_cases i step) as [Hlt | Hge]; [exact Hlt | exfalso].
  apply strictMinimum_elim in Ht.
  destruct Ht as [above [below [here [_ [Hb [Hh [_ Hlt]]]]]]].
  unfold rowBelow in Hb. destruct (i - step <? 0) eqn:E; [apply Z.ltb_lt in E; lia |].
  assert (Hle : (below <= here)%Q) by (apply (Hmono (i - step) i j); auto; lia).
  eapply Qlt_not_le; eassumption.
Qed.

(** On a grid with more rows than columns the call raises. *)
Lemma tall_grid_raises (bound : Q) (step : Z) (w : World) :
  well_formed (U w) -> W (U w) < H (U w) ->
  fst (findLocalMinimaWith bound step w) = None.
Proof.
  intros [Hr [_ Hw]] Htall. rewrite findLocalMinimaWith_result.
  unfold arraylocations. now rewrite lonZeros_tall by (auto; lia).
Qed.

(** * The claims on sample grids *)

Ltac grid_shape :=
  unfold well_formed, rectangular, H, W, Py.len; simpl;
  repeat split; try lia; repeat constructor.

(** ** Stage 1 *)

(** C1, the claim as stated fails: on the constant field [flatGrid] the
    cell [(0, 0)] has [j] in [0 .. i] and a zero derivative along the
    longitude, and is not a candidate. *)
Lemma stage1_skips_diagonal :
  ~ (forall i j,
       0 <= j <= i -> i < H flatGrid ->
       lonStationary (2 # 100) flatGrid i j = true ->
       exists zeros, lonZeros (2 # 100) flatGrid = Some zeros /\ In (i, j) zeros).
Proof.
  intros Hc. destruct (Hc 0 0) as [zeros [Hz Hin]]; [lia | reflexivity | reflexivity |].
  vm_compute in Hz. inversion Hz; subst. simpl in Hin.
  destruct Hin as [Heq | []]. discriminate.
Qed.

Lemma stage1_candidates_witness :
  well_formed flatGrid /\ H flatGrid <= W flatGrid /\
  exists zeros,
    lonZeros (2 # 100) flatGrid = Some zeros /\
    forall i j,
      In (i, j) zeros <->
      (0 <= j < i /\ i < H flatGrid /\ lonStationary (2 # 100) flatGrid i j = true).
Proof.
  split; [grid_shape |]. split; [unfold H, W, Py.len; simpl; lia |].
  apply (stage1_candidates (2 # 100) flatGrid).
  - grid_shape.
  - unfold H, W, Py.len. simpl. lia.
Defined.

(** ** Stage 2 *)

Lemma stage2_retained_witness :
  well_formed basin /\
  lonZeros (2 # 100) basin = Some (cells 6) /\
  arraylocations (2 # 100) basin =
    Some (filter (fun c => latStationary (2 # 100) basin (fst c) (snd c)) (cells 6)) /\
  forall locs, arraylocations (2 # 100) basin = Some locs ->
  forall i j,
    In (i, j) locs <->
    (In (i, j) (cells 6) /\ i + 1 < H basin /\ latStationary (2 # 100) basin i j = true).
Proof.
  split; [grid_shape |]. split; [vm_compute; reflexivity |].
  apply (stage2_retained (2 # 100) basin (cells 6)).
  - grid_shape.
  - vm_compute. reflexivity.
Defined.

(** ** Stage 3 *)

(** C2, the code on a failing input: on [polarLow] the retained candidate
    [(1, 0)] has its neighbour below at row [1 - 2 = -1], outside the
    grid, and is emitted. *)
Theorem polar_low_emitted :
  arraylocations (2 # 100) polarLow = Some [(1, 0)] /\
  ~ (0 <= 1 - 2 < H polarLow) /\
  fst (findLocalMinima (fresh polarLow)) = Some [(- 1, 0 - 180)].
Proof.
  split; [vm_compute; reflexivity |]. split; [lia |]. vm_compute. reflexivity.
Qed.

(** C7, the code on a failing input: on [polarLow] the output holds the
    point [(-1, -180)], and no retained candidate [(i, j)] with
    [F[i][j] < F[i+2][j]] and [F[i][j] < F[i-2][j]] gives it: the only
    retained candidate is [(1, 0)], and row [1 - 2] is not in the grid. *)
Theorem polar_low_origin :
  arraylocations (2 # 100) polarLow = Some [(1, 0)] /\
  fst (findLocalMinima (fresh polarLow)) = Some [(- 1, 0 - 180)] /\
  F polarLow (1 - 2) 0 = None /\
  ~ (exists i j above below here,
       In (i, j) [(1, 0)] /\ (- 1, 0 - 180) = (- i, j - 180) /\
       F polarLow (i + 2) j = Some above /\
       F polarLow (i - 2) j = Some below /\
       F polarLow i j = Some here /\
       (here < above)%Q /\ (here < below)%Q).
Proof.
  split; [vm_compute; reflexivity |]. split; [vm_compute; reflexivity |].
  split; [vm_compute; reflexivity |].
  intros [i [j [above [below [here [Hin [_ [_ [Hb _]]]]]]]]].
  simpl in Hin. destruct Hin as [Heq | []]. inversion Heq; subst.
  vm_compute in Hb. discriminate.
Qed.


Lemma stage3_output_witness :
  well_formed (U (fresh basin)) /\ 0 <= 2 /\
  arraylocations (2 # 100) (U (fresh basin)) =
    Some [(2, 0); (2, 1); (4, 0); (4, 1); (4, 2); (4, 3)] /\
  fst (findLocalMinimaWith (2 # 100) 2 (fresh basin)) =
    Some [(- 2, 0 - 180); (- 2, 1 - 180)] /\
  count_occ pair_eq_dec [(- 2, 0 - 180); (- 2, 1 - 180)] (- 2, 1 - 180) = 1%nat.
Proof.
  split; [grid_shape |]. split; [lia |]. split; [vm_compute; reflexivity |].
  destruct (stage3_output (2 # 100) 2 (fresh basin)
              [(2, 0); (2, 1); (4, 0); (4, 1); (4, 2); (4, 3)])
    as [out [Hout [Heq [_ [_ Hcount]]]]].
  - grid_shape.
  - lia.
  - vm_compute. reflexivity.
  - assert (Hlist : out = [(- 2, 0 - 180); (- 2, 1 - 180)])
      by (rewrite Heq; vm_compute; reflexivity).
    rewrite <- Hlist. split; [exact Hout |].
    apply (Hcount 2 1 (inject_Z 5) (inject_Z 5) (inject_Z 0)).
    + simpl. right. left. reflexivity.
    + lia.
    + unfold H, Py.len. simpl. lia.
    + vm_compute. reflexivity.
    + vm_compute. reflexivity.
    + vm_compute. reflexivity.
    + reflexivity.
    + reflexivity.
Defined.

(** ** The example of the paraboloid *)

(** C4, the claim as stated fails: whatever the coordinate arrays, the
    output on the paraboloid is not the single point [(-2, 2 - 180)]; the
    cell [(2, 2)] is on the diagonal, which stage 1 does not scan. *)
Lemma bowl_centre_not_reported :
  ~ exists lats lons : list Q,
      fst (findLocalMinimaWith (1 # 2) 1
             (fresh {| data := map qs paraboloid; lat := lats; lon := lons |})) =
      Some [(- 2, 2 - 180)].
Proof.
  intros [lats [lons Hout]].
  destruct (output_cells _ _ _ _ (- 2, 2 - 180) Hout (or_introl eq_refl))
    as [i [j [Heq Hij]]].
  inversion Heq. lia.
Qed.

(** C4, as amended: on the paraboloid with unit-spaced coordinates
    ([lat[i] = i], [lon[j] = j]), a bound of [1/2] and a step of [1], no
    cell passes stage 1 (the differences along the longitude are odd
    integers) and the function returns the empty sequence. *)
Theorem bowl_unit_spacing :
  lonZeros (1 # 2) bowl = Some [] /\
  fst (findLocalMinimaWith (1 # 2) 1 (fresh bowl)) = Some [].
Proof. split; vm_compute; reflexivity. Qed.

(** ** Constant and monotone fields *)

(** C5, the code on a failing input: on the constant field [tallFlat], of
    3 rows and 2 columns, the scan of stage 1 reads [dpdlon[2][1]] in a
    row of one element, and the call raises instead of returning the
    empty sequence. *)
Theorem constant_tall_raises :
  well_formed tallFlat /\ constant tallFlat /\
  fst (findLocalMinima (fresh tallFlat)) = None.
Proof.
  split; [grid_shape |]. split.
  - exists (inject_Z 7). repeat (constructor; try reflexivity).
  - vm_compute. reflexivity.
Qed.

Lemma constant_field_wide_witness :
  well_formed (U (fresh flatGrid)) /\ H (U (fresh flatGrid)) <= W (U (fresh flatGrid)) /\
  constant (U (fresh flatGrid)) /\
  fst (findLocalMinimaWith (2 # 100) 2 (fresh flatGrid)) = Some [].
Proof.
  assert (Hc : constant (U (fresh flatGrid)))
    by (exists (inject_Z 7); repeat (constructor; try reflexivity)).
  split; [grid_shape |]. split; [unfold H, W, Py.len; simpl; lia |]. split; [exact Hc |].
  apply (constant_field_wide (2 # 100) 2 (fresh flatGrid)).
  - grid_shape.
  - unfold H, W, Py.len. simpl. lia.
  - exact Hc.
Defined.

(** C6, the code on a failing input: the field [slope] increases along
    both axes, and the function returns the point of the candidate
    [(1, 0)], whose neighbour below is read at row [1 - 2 = -1], the last
    row of the grid. *)
Theorem gentle_slope_emitted :
  increasingAlongLat slope = true /\ increasingAlongLon slope = true /\
  arraylocations (2 # 100) slope = Some [(1, 0); (2, 0); (2, 1)] /\
  fst (findLocalMinima (fresh slope)) = Some [(- 1, 0 - 180)].
Proof. repeat split; vm_compute; reflexivity. Qed.

(** ** Effects *)

(** C10, the claim as stated fails: on [flatGrid] the call prints the
    line [(2, 0)], so the world after the call is not the world before. *)
Lemma prints_on_last_row :
  stdout (snd (findLocalMinima (fresh flatGrid))) = [(2, 0)] /\
  snd (findLocalMinima (fresh flatGrid)) <> fresh flatGrid.
Proof.
  split; [vm_compute; reflexivity |].
  intros Heq. apply (f_equal stdout) in Heq. vm_compute in Heq. discriminate.
Qed.

Lemma findLocalMinima_frame_witness :
  well_formed (U (fresh flatGrid)) /\
  U (snd (findLocalMinimaWith (2 # 100) 2 (fresh flatGrid))) = U (fresh flatGrid) /\
  stdout (snd (findLocalMinimaWith (2 # 100) 2 (fresh flatGrid))) = [] ++ [(1 + 1, 0)].
Proof.
  split; [grid_shape |].
  destruct (findLocalMinima_frame (2 # 100) 2 (fresh flatGrid)) as [HU Hout].
  - grid_shape.
  - split; [exact HU |].
    assert (Hz : lonZeros (2 # 100) (U (fresh flatGrid)) = Some [(1, 0)])
      by (vm_compute; reflexivity).
    rewrite Hz in Hout. exact Hout.
Defined.

(** * Further properties of [findLocalMinima] *)

(** ** When the call raises *)

Lemma wide_grid_returns (bound : Q) (step : Z) (w : World) :
  well_formed (U w) -> H (U w) <= W (U w) ->
  fst (findLocalMinimaWith bound step w) <> None.
Proof.
  intros [Hr _] Hw. rewrite findLocalMinimaWith_result.
  rewrite (arraylocations_filter bound (U w) _ (lonZeros_wide bound (U w) Hr Hw)).
  discriminate.
Qed.

(** The call raises exactly on the grids with more rows than columns: the
    row index bounds the columns that stage 1 reads. *)
Theorem raises_iff_tall (bound : Q) (step : Z) (w : World) :
  well_formed (U w) ->
  (fst (findLocalMinimaWith bound step w) = None <-> W (U w) < H (U w)).
Proof.
  intros Hwf. split.
  - intros Hnone. destruct (Z.lt_ge_cases (W (U w)) (H (U w))) as [Hlt | Hge]; [exact Hlt |].
    exfalso. now apply (wide_grid_returns bound step w Hwf Hge).
  - now apply tall_grid_raises.
Qed.

Lemma raises_iff_tall_witness :
  well_formed (U (fresh tallFlat)) /\
  (fst (findLocalMinimaWith (2 # 100) 2 (fresh tallFlat)) = None <->
   W (U (fresh tallFlat)) < H (U (fresh tallFlat))).
Proof.
  split; [grid_shape |]. apply (raises_iff_tall (2 # 100) 2 (fresh tallFlat)). grid_shape.
Defined.

(** ** Where the minima can be *)

Lemma lonStationary_bounds (eps : Q) (u : DataArray) (i j : Z) :
  rectangular u -> lonStationary eps u i j = true ->
  0 <= i < H u /\ 0 <= j /\ j + 1 < W u.
Proof.
  intros Hr Ht. unfold lonStationary, dF_dlon in Ht.
  destruct (F u i (j + 1)) as [a |] eqn:Ea; [| discriminate].
  destruct (F u i j) as [b |] eqn:Eb; [| discriminate].
  apply (F_Some_bounds _ _ _ _ Hr) in Ea. apply (F_Some_bounds _ _ _ _ Hr) in Eb. lia.
Qed.

Lemma arraylocations_member (bound : Q) (u : DataArray) (locs : list (Z * Z)) (i j : Z) :
  rectangular u -> arraylocations bound u = Some locs -> In (i, j) locs ->
  0 <= j < i /\ lonStationary bound u i j = true /\ latStationary bound u i j = true.
Proof.
  intros Hr Hl Hin.
  destruct (lonZeros bound u) as [zeros |] eqn:Hz;
    [| unfold arraylocations in Hl; rewrite Hz in Hl; discriminate].
  rewrite (arraylocations_filter bound u zeros Hz) in Hl. inversion Hl; subst.
  apply filter_In in Hin. destruct Hin as [Hin Hlat]. simpl in Hlat.
  pose proof (lonZeros_cells _ _ _ _ _ Hz Hin) as Hij.
  rewrite (lonZeros_inv _ _ _ Hz), len_dpdlon in Hin by assumption.
  apply filter_In in Hin. destruct Hin as [Hc Hp].
  rewrite passes_lonStationary in Hp by assumption. auto.
Qed.

(** A point of the output comes from a retained candidate that passes
    the test of stage 3. *)
Lemma output_origin (bound : Q) (step : Z) (w : World) (out : list (Z * Z)) (p : Z * Z) :
  rectangular (U w) -> 0 <= step ->
  fst (findLocalMinimaWith bound step w) = Some out -> In p out ->
  exists i j locs,
    p = (- i, j - 180) /\ arraylocations bound (U w) = Some locs /\
    In (i, j) locs /\ strictMinimum (U w) step i j = true.
Proof.
  intros Hr Hs Ho Hin.
  destruct (arraylocations bound (U w)) as [locs |] eqn:Hl;
    [| rewrite findLocalMinimaWith_result, Hl in Ho; discriminate].
  rewrite (output_filter bound step w locs Hr Hs Hl) in Ho. inversion Ho; subst.
  apply in_map_iff in Hin. destruct Hin as [[i j] [<- Hin]].
  apply filter_In in Hin. destruct Hin as [Hin Ht]. exists i, j, locs. auto.
Qed.

Lemma candidate_bounds (bound : Q) (u : DataArray) (locs : list (Z * Z)) (i j : Z) :
  rectangular u -> arraylocations bound u = Some locs -> In (i, j) locs ->
  0 <= j < i /\ i + 1 < H u /\ j + 1 < W u.
Proof.
  intros Hr Hl Hin.
  destruct (arraylocations_member _ _ _ _ _ Hr Hl Hin) as [Hij [Hlon Hlat]].
  split; [exact Hij |]. split; [eapply latStationary_in_bounds; eassumption |].
  apply (lonStationary_bounds _ _ _ _ Hr Hlon).
Qed.

Lemma strictMinimum_upper (u : DataArray) (step i j : Z) :
  rectangular u -> strictMinimum u step i j = true -> i + step < H u.
Proof.
  intros Hr Ht. apply strictMinimum_elim in Ht. destruct Ht as [above [_ [_ [Ha _]]]].
  apply (F_Some_bounds _ _ _ _ Hr) in Ha. lia.
Qed.

(** Every point of the output is [(-i, j - 180)] for a cell [(i, j)]
    strictly below the diagonal, with the rows [i + 1] and [i + step] and
    the column [j + 1] inside the grid: row 0, the last rows and the cells
    on or above the diagonal never give a minimum. *)
Theorem output_bounds (bound : Q) (step : Z) (w : World) (out : list (Z * Z)) (p : Z * Z) :
  well_formed (U w) -> 0 <= step ->
  fst (findLocalMinimaWith bound step w) = Some out -> In p out ->
  exists i j,
    p = (- i, j - 180) /\ 0 <= j < i /\
    i + 1 < H (U w) /\ i + step < H (U w) /\ j + 1 < W (U w).
Proof.
  intros [Hr _] Hs Ho Hin.
  destruct (output_origin bound step w out p Hr Hs Ho Hin) as [i [j [locs [Hp [Hl [Hc Ht]]]]]].
  destruct (candidate_bounds bound (U w) locs i j Hr Hl Hc) as [Hij [Hrow Hcol]].
  pose proof (strictMinimum_upper (U w) step i j Hr Ht) as Hup.
  exists i, j. repeat split; try assumption; lia.
Qed.

Lemma output_bounds_witness :
  well_formed (U (fresh basin)) /\ 0 <= 2 /\
  fst (findLocalMinimaWith (2 # 100) 2 (fresh basin)) =
    Some [(- 2, 0 - 180); (- 2, 1 - 180)] /\
  In (- 2, 1 - 180) [(- 2, 0 - 180); (- 2, 1 - 180)] /\
  exists i j,
    (- 2, 1 - 180) = (- i, j - 180) /\ 0 <= j < i /\
    i + 1 < H (U (fresh basin)) /\ i + 2 < H (U (fresh basin)) /\
    j + 1 < W (U (fresh basin)).
Proof.
  split; [grid_shape |]. split; [lia |]. split; [vm_compute; reflexivity |].
  split; [simpl; right; left; reflexivity |].
  apply (output_bounds (2 # 100) 2 (fresh basin) [(- 2, 0 - 180); (- 2, 1 - 180)]).
  - grid_shape.
  - lia.
  - vm_compute. reflexivity.
  - simpl. right. left. reflexivity.
Defined.

(** A grid with at most [step + 1] rows (and no more rows than columns)
    gives no minimum. *)
Theorem short_grid_empty (bound : Q) (step : Z) (w : World) :
  well_formed (U w) -> 0 <= step ->
  H (U w) <= W (U w) -> H (U w) <= step + 1 ->
  fst (findLocalMinimaWith bound step w) = Some [].
Proof.
  intros Hwf Hs Hw Hshort.
  destruct (fst (findLocalMinimaWith bound step w)) as [out |] eqn:Ho.
  - destruct out as [| p out]; [reflexivity | exfalso].
    destruct Hwf as [Hr _].
    destruct (output_origin bound step w (p :: out) p Hr Hs Ho (or_introl eq_refl))
      as [i [j [locs [_ [Hl [Hc Ht]]]]]].
    pose proof (arraylocations_cells _ _ _ _ _ Hl Hc) as Hij.
    pose proof (strictMinimum_upper (U w) step i j Hr Ht) as Hup. lia.
  - exfalso. now apply (wide_grid_returns bound step w Hwf Hw).
Qed.

Lemma short_grid_empty_witness :
  well_formed (U (fresh flatGrid)) /\ 0 <= 2 /\
  H (U (fresh flatGrid)) <= W (U (fresh flatGrid)) /\
  H (U (fresh flatGrid)) <= 2 + 1 /\
  fst (findLocalMinimaWith (2 # 100) 2 (fresh flatGrid)) = Some [].
Proof.
  split; [grid_shape |]. split; [lia |].
  split; [unfold H, W, Py.len; simpl; lia |]. split; [unfold H, Py.len; simpl; lia |].
  apply (short_grid_empty (2 # 100) 2 (fresh flatGrid)).
  - grid_shape.
  - lia.
  - unfold H, W, Py.len. simpl. lia.
  - unfold H, Py.len. simpl. lia.
Defined.

(** ** The order of the output *)

Lemma outputOrder_irrefl (p : Z * Z) : ~ outputOrder p p.
Proof. unfold outputOrder. lia. Qed.

(** The output has no duplicate, and its points come in the order of the
    scan: by decreasing first component, and by increasing second
    component at equal first components. *)
Theorem output_sorted (bound : Q) (step : Z) (w : World) (out : list (Z * Z)) :
  fst (findLocalMinimaWith bound step w) = Some out ->
  StronglySorted outputOrder out /\ NoDup out.
Proof.
  intros Ho. rewrite findLocalMinimaWith_result in Ho.
  destruct (arraylocations bound (U w)) as [locs |] eqn:Hl; [| discriminate].
  simpl in Ho. inversion Ho; subst. rewrite minima_filter.
  assert (Hs : StronglySorted outputOrder (map translate (filter (confirmed (U w) step) locs))).
  { apply (sorted_map rowMajor).
    - intros [a b] [c d]. unfold rowMajor, outputOrder, translate. simpl. lia.
    - apply sorted_filter. eapply sorted_arraylocations; eassumption. }
  split; [exact Hs |]. eapply sorted_NoDup; [apply outputOrder_irrefl | exact Hs].
Qed.

Lemma output_sorted_witness :
  fst (findLocalMinimaWith (2 # 100) 2 (fresh basin)) =
    Some [(- 2, 0 - 180); (- 2, 1 - 180)] /\
  StronglySorted outputOrder [(- 2, 0 - 180); (- 2, 1 - 180)] /\
  NoDup [(- 2, 0 - 180); (- 2, 1 - 180)].
Proof.
  split; [vm_compute; reflexivity |].
  apply (output_sorted (2 # 100) 2 (fresh basin)). vm_compute. reflexivity.
Defined.

(** ** The bound and the step *)

Lemma abs_le_mono (d : float) (b1 b2 : Q) :
  (b1 <= b2)%Q -> Np.abs_le d b1 = true -> Np.abs_le d b2 = true.
Proof.
  destruct d as [q |]; simpl; [| discriminate].
  rewrite !Qle_bool_iff. intros Hb Hq. eapply Qle_trans; eassumption.
Qed.

Lemma abs_le_negative (d : float) (bound : Q) : (bound < 0)%Q -> Np.abs_le d bound = false.
Proof.
  intros Hb. destruct d as [q |]; simpl; [| reflexivity].
  destruct (Qle_bool (Qabs q) bound) eqn:E; [| reflexivity].
  apply Qle_bool_iff in E. exfalso.
  apply (Qlt_not_le _ _ Hb). eapply Qle_trans; [apply Qabs_nonneg | exact E].
Qed.

Lemma scanRows_entries (bound : Q) (dp : list (list float)) (xs : list Z) (r : list (Z * Z)) :
  scanRows bound dp xs = Some r ->
  forall x y, In x xs -> In y (Py.range x) -> entry dp x y <> None.
Proof.
  intros Hs x y Hx Hy Hn.
  rewrite scanRows_raises in Hs; [discriminate | eauto].
Qed.

(** Whether stage 1 ends does not depend on the bound. *)
Lemma lonZeros_any_bound (b1 b2 : Q) (u : DataArray) (z1 : list (Z * Z)) :
  lonZeros b1 u = Some z1 -> exists z2, lonZeros b2 u = Some z2.
Proof.
  intros Hz. apply scanRows_total. eapply scanRows_entries. exact Hz.
Qed.

(** A larger bound loses no minimum: the output under a bound is included
    in the output under any larger bound. *)
Theorem bound_monotone (b1 b2 : Q) (step : Z) (w : World) (out1 : list (Z * Z)) :
  (b1 <= b2)%Q ->
  fst (findLocalMinimaWith b1 step w) = Some out1 ->
  exists out2,
    fst (findLocalMinimaWith b2 step w) = Some out2 /\ incl out1 out2.
Proof.
  intros Hb Ho. rewrite findLocalMinimaWith_result in Ho.
  unfold arraylocations, Py.bind in Ho.
  destruct (lonZeros b1 (U w)) as [z1 |] eqn:Hz1; [| discriminate].
  destruct (lonZeros_any_bound b1 b2 (U w) z1 Hz1) as [z2 Hz2].
  rewrite findLocalMinimaWith_result. unfold arraylocations, Py.bind. rewrite Hz2.
  simpl in *. eexists. split; [reflexivity |].
  inversion Ho; subst. intros p Hin. rewrite minima_filter in *.
  apply in_map_iff in Hin. destruct Hin as [c [<- Hc]].
  apply in_map. apply filter_In in Hc. destruct Hc as [Hc Hconf].
  apply filter_In. split; [| exact Hconf].
  rewrite latZeros_kept in *. apply filter_In in Hc. destruct Hc as [Hc Hlat].
  apply filter_In. split.
  - rewrite (lonZeros_inv _ _ _ Hz1) in Hc. rewrite (lonZeros_inv _ _ _ Hz2).
    apply filter_In in Hc. destruct Hc as [Hc Hp]. apply filter_In. split; [exact Hc |].
    unfold passes in *. destruct (entry (dpdlon (U w)) (fst c) (snd c)); [| discriminate].
    eapply abs_le_mono; eassumption.
  - destruct (dpdlat (U w) (sliceTupleArray (makeCoordArr (U w)) 0) (fst c) (snd c));
      [| discriminate].
    eapply abs_le_mono; eassumption.
Qed.

Lemma bound_monotone_witness :
  (2 # 100 <= 1 # 2)%Q /\
  fst (findLocalMinimaWith (2 # 100) 2 (fresh basin)) =
    Some [(- 2, 0 - 180); (- 2, 1 - 180)] /\
  exists out2,
    fst (findLocalMinimaWith (1 # 2) 2 (fresh basin)) = Some out2 /\
    incl [(- 2, 0 - 180); (- 2, 1 - 180)] out2.
Proof.
  assert (Hb : (2 # 100 <= 1 # 2)%Q) by (unfold Qle; simpl; lia).
  split; [exact Hb |]. split; [vm_compute; reflexivity |].
  apply (bound_monotone (2 # 100) (1 # 2) 2 (fresh basin)).
  - exact Hb.
  - vm_compute. reflexivity.
Defined.

(** With a negative bound no derivative counts as a zero: the result is
    the empty sequence. *)
Theorem negative_bound_empty (bound : Q) (step : Z) (w : World) :
  well_formed (U w) -> H (U w) <= W (U w) -> (bound < 0)%Q ->
  fst (findLocalMinimaWith bound step w) = Some [].
Proof.
  intros [Hr _] Hw Hb. rewrite findLocalMinimaWith_result.
  rewrite (arraylocations_filter bound (U w) _ (lonZeros_wide bound (U w) Hr Hw)).
  rewrite (filter_none (fun c => lonStationary bound (U w) (fst c) (snd c))); [reflexivity |].
  intros c. unfold lonStationary. destruct (dF_dlon (U w) (fst c) (snd c)); [| reflexivity].
  now apply abs_le_negative.
Qed.

Lemma negative_bound_empty_witness :
  well_formed (U (fresh basin)) /\ H (U (fresh basin)) <= W (U (fresh basin)) /\
  (- (1 # 2) < 0)%Q /\
  fst (findLocalMinimaWith (- (1 # 2)) 2 (fresh basin)) = Some [].
Proof.
  split; [grid_shape |]. split; [unfold H, W, Py.len; simpl; lia |].
  split; [reflexivity |].
  apply (negative_bound_empty (- (1 # 2)) 2 (fresh basin)).
  - grid_shape.
  - unfold H, W, Py.len. simpl. lia.
  - reflexivity.
Defined.

Lemma confirmed_zero_step (u : DataArray) (c : Z * Z) : confirmed u 0 c = false.
Proof.
  unfold confirmed, isMinimum, Py.bind. rewrite Z.add_0_r.
  destruct ((data u).[fst c]) as [r0 |]; [| reflexivity].
  destruct (r0.[snd c]) as [here |]; [| reflexivity].
  unfold Np.gt at 1. assert (Hle : Qle_bool here here = true) by (apply Qle_bool_iff, Qle_refl).
  now rewrite Hle.
Qed.

(** With [step = 0] each value is compared with itself, and the strict
    comparison fails: the result is the empty sequence. *)
Theorem zero_step_empty (bound : Q) (w : World) :
  well_formed (U w) -> H (U w) <= W (U w) ->
  fst (findLocalMinimaWith bound 0 w) = Some [].
Proof.
  intros [Hr _] Hw. rewrite findLocalMinimaWith_result.
  rewrite (arraylocations_filter bound (U w) _ (lonZeros_wide bound (U w) Hr Hw)).
  simpl. f_equal. rewrite minima_filter, filter_none; [reflexivity |].
  apply confirmed_zero_step.
Qed.

Lemma zero_step_empty_witness :
  well_formed (U (fresh basin)) /\ H (U (fresh basin)) <= W (U (fresh basin)) /\
  fst (findLocalMinimaWith (2 # 100) 0 (fresh basin)) = Some [].
Proof.
  split; [grid_shape |]. split; [unfold H, W, Py.len; simpl; lia |].
  apply (zero_step_empty (2 # 100) (fresh basin)).
  - grid_shape.
  - unfold H, W, Py.len. simpl. lia.
Defined.

(** ** Monotone fields *)

Lemma slope_nondecreasing : nondecreasingAlongLat slope.
Proof.
  intros i i' j a b Hle Ha Hb.
  assert (Hwf : well_formed slope) by grid_shape. destruct Hwf as [Hr _].
  pose proof (F_Some_bounds _ _ _ _ Hr Ha) as [Hi Hj].
  pose proof (F_Some_bounds _ _ _ _ Hr Hb) as [Hi' _].
  unfold H, W, Py.len in *. simpl in Hi, Hi', Hj.
  assert (Ci : i = 0 \/ i = 1 \/ i = 2 \/ i = 3) by lia.
  assert (Ci' : i' = 0 \/ i' = 1 \/ i' = 2 \/ i' = 3) by lia.
  assert (Cj : j = 0 \/ j = 1 \/ j = 2 \/ j = 3) by lia.
  destruct Ci as [-> | [-> | [-> | ->]]]; destruct Ci' as [-> | [-> | [-> | ->]]];
    try lia;
    destruct Cj as [-> | [-> | [-> | ->]]];
    vm_compute in Ha, Hb; inversion Ha; inversion Hb; subst;
    unfold Qle; simpl; lia.
Qed.

Lemma monotone_output_wraps_witness :
  well_formed (U (fresh slope)) /\ 0 <= 2 /\ nondecreasingAlongLat (U (fresh slope)) /\
  fst (findLocalMinimaWith (2 # 100) 2 (fresh slope)) = Some [(- 1, 0 - 180)] /\
  exists i j, (- 1, 0 - 180) = (- i, j - 180) /\ 0 <= i < 2.
Proof.
  split; [grid_shape |]. split; [lia |]. split; [exact slope_nondecreasing |].
  split; [vm_compute; reflexivity |].
  apply (monotone_output_wraps (2 # 100) 2 (fresh slope) [(- 1, 0 - 180)]).
  - grid_shape.
  - lia.
  - exact slope_nondecreasing.
  - vm_compute. reflexivity.
  - simpl. left. reflexivity.
Defined.

(** On a field that does not decrease along the latitude, a step of 0 or
    1 gives no minimum: the only points ever emitted on such a field are
    in the rows [1 <= i < step]. *)
Theorem monotone_small_step_empty (bound : Q) (step : Z) (w : World) :
  well_formed (U w) -> H (U w) <= W (U w) -> 0 <= step <= 1 ->
  nondecreasingAlongLat (U w) ->
  fst (findLocalMinimaWith bound step w) = Some [].
Proof.
  intros Hwf Hw Hs Hmono.
  destruct (fst (findLocalMinimaWith bound step w)) as [out |] eqn:Ho.
  - destruct out as [| p out]; [reflexivity | exfalso].
    destruct Hwf as [Hr _].
    destruct (output_origin bound step w (p :: out) p Hr (proj1 Hs) Ho (or_introl eq_refl))
      as [i [j [locs [_ [Hl [Hc Ht]]]]]].
    pose proof (arraylocations_cells _ _ _ _ _ Hl Hc) as Hij.
    apply strictMinimum_elim in Ht.
    destruct Ht as [above [below [here [_ [Hb [Hh [_ Hlt]]]]]]].
    unfold rowBelow in Hb. destruct (i - step <? 0) eqn:E; [apply Z.ltb_lt in E; lia |].
    assert (Hle : (below <= here)%Q) by (apply (Hmono (i - step) i j); auto; lia).
    eapply Qlt_not_le; eassumption.
  - exfalso. now apply (wide_grid_returns bound step w Hwf Hw).
Qed.

Lemma monotone_small_step_empty_witness :
  well_formed (U (fresh slope)) /\ H (U (fresh slope)) <= W (U (fresh slope)) /\
  0 <= 1 <= 1 /\ nondecreasingAlongLat (U (fresh slope)) /\
  fst (findLocalMinimaWith (2 # 100) 1 (fresh slope)) = Some [].
Proof.
  split; [grid_shape |]. split; [unfold H, W, Py.len; simpl; lia |]. split; [lia |].
  split; [exact slope_nondecreasing |].
  apply (monotone_small_step_empty (2 # 100) 1 (fresh slope)).
  - grid_shape.
  - unfold H, W, Py.len. simpl. lia.
  - lia.
  - exact slope_nondecreasing.
Defined.

(** ** Lookups in a mapped array *)

Lemma getitem_map {A B : Type} (f : A -> B) (a : list A) (i : Z) :
  (map f a).[i] = option_map f (a.[i]).
Proof.
  unfold Py.getitem, Py.len. rewrite length_map.
  destruct ((0 <=? i) && (i <? Z.of_nat (length a))); [apply nth_error_map |].
  destruct ((- Z.of_nat (length a) <=? i) && (i <? 0)); [apply nth_error_map | reflexivity].
Qed.

(** * The coordinate arrays: [makeCoordArr] and [sliceTupleArray] *)

Lemma zip_pairs (r : list (Q * Q)) :
  Np.zip_with pair (column 0 r) (column 1 r) = r.
Proof.
  unfold column. induction r as [| [a b] r IH]; simpl in *; [reflexivity |]. now rewrite IH.
Qed.

(** Slicing an array of pairs at index 0 and at index 1 loses nothing:
    pairing the two slices cell by cell gives the array back. *)
Theorem sliceTupleArray_roundtrip (tupleArray : list (list (Q * Q))) :
  Np.zip_with (Np.zip_with pair)
    (sliceTupleArray tupleArray 0) (sliceTupleArray tupleArray 1) = tupleArray.
Proof.
  unfold sliceTupleArray. induction tupleArray as [| r t IH]; [reflexivity |].
  cbn [map Np.zip_with]. now rewrite IH, zip_pairs.
Qed.

(** [makeCoordArr] has the dimensions of the pressure data: as many rows,
    and in each row as many cells. *)
Theorem makeCoordArr_shape (u : DataArray) :
  rectangular u ->
  Py.len (makeCoordArr u) = Py.len (data u) /\
  Forall (fun row => Py.len row = W u) (makeCoordArr u) /\
  Forall (fun row => Py.len row = W u) (data u).
Proof.
  intros [Hrows Hcols]. unfold makeCoordArr. split; [| split; [| exact Hcols]].
  - unfold Py.len in *. rewrite length_map. unfold H, Py.len in Hrows. lia.
  - apply Forall_forall. intros row Hin. apply in_map_iff in Hin.
    destruct Hin as [a [<- _]]. unfold Py.len, W, Py.len. now rewrite length_map.
Qed.

Lemma makeCoordArr_shape_witness :
  rectangular basin /\
  Py.len (makeCoordArr basin) = Py.len (data basin) /\
  Forall (fun row => Py.len row = W basin) (makeCoordArr basin) /\
  Forall (fun row => Py.len row = W basin) (data basin).
Proof.
  assert (Hr : rectangular basin) by (unfold rectangular, H, W, Py.len; simpl; repeat constructor).
  split; [exact Hr |]. apply (makeCoordArr_shape basin). exact Hr.
Defined.

Lemma cell_makeCoordArr (u : DataArray) (i j : Z) :
  cell (makeCoordArr u) i j =
  match at_index (lat u) i, at_index (lon u) j with
  | Some a, Some b => Some (a, b)
  | _, _ => None
  end.
Proof.
  unfold cell, makeCoordArr, at_index.
  destruct (i <? 0); [reflexivity |]. rewrite nth_error_map.
  destruct (nth_error (lat u) (Z.to_nat i)) as [a |]; [| reflexivity]. simpl.
  destruct (j <? 0); [reflexivity |]. rewrite nth_error_map.
  now destruct (nth_error (lon u) (Z.to_nat j)).
Qed.

Lemma cell_lonGrid (u : DataArray) (i j : Z) :
  0 <= i < H u -> cell (sliceTupleArray (makeCoordArr u) 1) i j = at_index (lon u) j.
Proof.
  intros Hi. rewrite lonGrid_rows. unfold cell.
  destruct (at_index_defined (lat u) i Hi) as [a Ha].
  unfold at_index in *. destruct (i <? 0); [discriminate |].
  rewrite nth_error_map, Ha. reflexivity.
Qed.

(** The two coordinate grids of [findLocalMinima]: at every cell of the
    grid, [latdata[i][j]] is [lat[i]] and [londata[i][j]] is [lon[j]]. *)
Theorem coordinate_grids (u : DataArray) (i j : Z) :
  0 <= i < H u -> 0 <= j < W u ->
  cell (sliceTupleArray (makeCoordArr u) 0) i j = at_index (lat u) i /\
  cell (sliceTupleArray (makeCoordArr u) 1) i j = at_index (lon u) j.
Proof.
  intros Hi Hj. split; [now apply cell_latGrid | now apply cell_lonGrid].
Qed.

Lemma coordinate_grids_witness :
  0 <= 2 < H slope /\ 0 <= 3 < W slope /\
  cell (sliceTupleArray (makeCoordArr slope) 0) 2 3 = at_index (lat slope) 2 /\
  cell (sliceTupleArray (makeCoordArr slope) 1) 2 3 = at_index (lon slope) 3.
Proof.
  split; [unfold H, Py.len; simpl; lia |]. split; [unfold W, Py.len; simpl; lia |].
  apply (coordinate_grids slope 2 3).
  - unfold H, Py.len. simpl. lia.
  - unfold W, Py.len. simpl. lia.
Defined.

(** * [findCoordPressureData] *)

Lemma entry_makeCoordArr (u : DataArray) (x y : Z) :
  0 <= x -> 0 <= y ->
  entry (makeCoordArr u) x y =
  match at_index (lat u) x, at_index (lon u) y with
  | Some a, Some b => Some (a, b)
  | _, _ => None
  end.
Proof.
  intros Hx Hy. rewrite entry_nonneg by assumption. apply cell_makeCoordArr.
Qed.

Lemma mirrorRow_bounds (u : DataArray) (x : Z) :
  0 <= x < H u -> 0 <= mirrorRow u x < H u.
Proof.
  intros Hx. unfold mirrorRow. destruct (x =? 0) eqn:E; [lia |].
  apply Z.eqb_neq in E. lia.
Qed.

(** [U.data[-x][y]] is the value of the field at row [mirrorRow x]. *)
Lemma entry_mirror (u : DataArray) (x y : Z) :
  rectangular u -> 0 <= x < H u -> 0 <= y ->
  entry (data u) (- x) y = F u (mirrorRow u x) y.
Proof.
  intros [Hrows _] Hx Hy. unfold entry, F, cell, Py.bind, mirrorRow.
  destruct (x =? 0) eqn:E.
  - apply Z.eqb_eq in E. subst x. simpl. rewrite getitem_nonneg by lia.
    destruct (at_index (data u) 0) as [row |]; [now apply getitem_nonneg | reflexivity].
  - apply Z.eqb_neq in E. rewrite getitem_negative by (rewrite Hrows; lia).
    rewrite Hrows. replace (H u + - x) with (H u - x) by lia.
    destruct (at_index (data u) (H u - x)) as [row |]; [now apply getitem_nonneg | reflexivity].
Qed.

Lemma pressureRow_spec (u : DataArray) (la lo : Q) (x : Z) (ys : list Z) :
  rectangular u -> 0 <= x < H u -> (forall y, In y ys -> 0 <= y < W u) ->
  exists printed,
    pressureRow u (makeCoordArr u) la lo x ys = (printed, true) /\
    map Some printed =
    map (fun y => F u (mirrorRow u x) y) (filter (fun y => atCoordinates u la lo (x, y)) ys).
Proof.
  intros Hr Hx. induction ys as [| y ys IH]; intros Hys; simpl.
  - exists []. split; reflexivity.
  - destruct IH as [rest [Hrest Hmap]]; [intros; apply Hys; now right |].
    assert (Hy : 0 <= y < W u) by (apply Hys; now left).
    destruct (at_index_defined (lat u) x Hx) as [a Ha].
    destruct (at_index_defined (lon u) y Hy) as [b Hb].
    rewrite entry_makeCoordArr, Ha, Hb by lia. simpl.
    assert (Hc : atCoordinates u la lo (x, y) = Qeq_bool a la && Qeq_bool b lo)
      by (unfold atCoordinates; simpl; now rewrite Ha, Hb).
    rewrite Hc. destruct (Qeq_bool a la && Qeq_bool b lo).
    + rewrite entry_mirror by (auto; lia).
      destruct (F_defined u (mirrorRow u x) y Hr (mirrorRow_bounds u x Hx) Hy) as [p Hp].
      rewrite Hp, Hrest. exists (p :: rest). split; [reflexivity |].
      simpl. now rewrite Hp, Hmap.
    + exists rest. split; assumption.
Qed.

Lemma pressureRows_spec (u : DataArray) (la lo : Q) (xs : list Z) :
  rectangular u -> (forall x, In x xs -> 0 <= x < H u) ->
  exists printed,
    pressureRows u (makeCoordArr u) la lo xs = (printed, true) /\
    map Some printed =
    map (fun c => F u (mirrorRow u (fst c)) (snd c))
        (filter (atCoordinates u la lo)
                (flat_map (fun i => map (fun j => (i, j)) (Py.range (W u))) xs)).
Proof.
  intros Hr. induction xs as [| x xs IH]; intros Hxs; simpl.
  - exists []. split; reflexivity.
  - destruct IH as [rest [Hrest Hmap]]; [intros; apply Hxs; now right |].
    assert (Hx : 0 <= x < H u) by (apply Hxs; now left).
    unfold makeCoordArr at 1. rewrite getitem_map, getitem_nonneg by lia.
    destruct (at_index_defined (lat u) x Hx) as [a ->]. simpl.
    replace (Py.len (map (fun y => (a, y)) (lon u))) with (W u)
      by (unfold W, Py.len; now rewrite length_map).
    destruct (pressureRow_spec u la lo x (Py.range (W u)) Hr Hx) as [here [Hhere Hmap']];
      [intros y Hy; now apply in_range in Hy |].
    fold (makeCoordArr u). rewrite Hhere, Hrest. exists (here ++ rest)%list.
    split; [reflexivity |].
    rewrite filter_app, filter_pairs, !map_app, Hmap, Hmap', map_map. reflexivity.
Qed.

(** On the coordinate array of the script the function never raises, and
    for each cell [(x, y)] whose coordinates are [(lat, lon)], in
    row-major order, it prints the value of the field at row [H - x] (at
    row 0 for [x = 0]) and column [y]: the row is counted from the end. *)
Theorem findCoordPressureData_mirrored (u : DataArray) (la lo : Q) :
  well_formed u ->
  exists printed,
    findCoordPressureData u (makeCoordArr u) la lo = (printed, true) /\
    map Some printed =
    map (fun c => F u (mirrorRow u (fst c)) (snd c))
        (filter (atCoordinates u la lo) (gridCells (H u) (W u))).
Proof.
  intros [Hr _]. unfold findCoordPressureData, gridCells.
  replace (Py.len (makeCoordArr u)) with (H u)
    by (unfold makeCoordArr, H, Py.len; now rewrite length_map).
  apply pressureRows_spec; [exact Hr |]. intros x Hx. now apply in_range in Hx.
Qed.

Lemma findCoordPressureData_mirrored_witness :
  well_formed slope /\
  findCoordPressureData slope (makeCoordArr slope) (inject_Z 64) (inject_Z 128) =
    ([inject_Z 5], true) /\
  F slope 1 2 = Some (inject_Z 3) /\
  exists printed,
    findCoordPressureData slope (makeCoordArr slope) (inject_Z 64) (inject_Z 128) =
      (printed, true) /\
    map Some printed =
    map (fun c => F slope (mirrorRow slope (fst c)) (snd c))
        (filter (atCoordinates slope (inject_Z 64) (inject_Z 128))
                (gridCells (H slope) (W slope))).
Proof.
  split; [grid_shape |]. split; [vm_compute; reflexivity |].
  split; [vm_compute; reflexivity |].
  apply (findCoordPressureData_mirrored slope (inject_Z 64) (inject_Z 128)). grid_shape.
Defined.

Lemma sorted_grid (w : Z) (xs : list Z) :
  StronglySorted Z.lt xs ->
  StronglySorted rowMajor (flat_map (fun i => map (fun j => (i, j)) (Py.range w)) xs).
Proof.
  intros Hs. induction Hs as [| x xs Hs IH Hall]; simpl; [constructor |].
  apply sorted_app.
  - apply (sorted_map Z.lt); [| apply sorted_range].
    intros a b Hab. right. simpl. split; [reflexivity | exact Hab].
  - exact IH.
  - intros p q Hp Hq. apply in_map_iff in Hp. destruct Hp as [j [<- _]].
    apply in_flat_map in Hq. destruct Hq as [x' [Hx' Hq]].
    apply in_map_iff in Hq. destruct Hq as [j' [<- _]].
    left. simpl. rewrite Forall_forall in Hall. now apply Hall.
Qed.

Lemma in_gridCells (h w i j : Z) : In (i, j) (gridCells h w) <-> 0 <= i < h /\ 0 <= j < w.
Proof.
  unfold gridCells. rewrite in_flat_map. split.
  - intros [x [Hx Hin]]. apply in_map_iff in Hin. destruct Hin as [y [Heq Hy]].
    inversion Heq; subst. apply in_range in Hx. apply in_range in Hy. lia.
  - intros [Hi Hj]. exists i. split; [now apply in_range |].
    apply in_map_iff. exists j. split; [reflexivity | now apply in_range].
Qed.

Lemma filter_nil_in {A : Type} (f : A -> bool) (l : list A) :
  (forall x, In x l -> f x = false) -> filter f l = [].
Proof.
  induction l as [| x l IH]; intros Hf; simpl; [reflexivity |].
  rewrite (Hf x (or_introl eq_refl)). apply IH. intros y Hy. apply Hf. now right.
Qed.

Lemma filter_unique {A : Type} (f : A -> bool) (l : list A) (a : A) :
  NoDup l -> In a l -> f a = true ->
  (forall b, In b l -> f b = true -> b = a) ->
  filter f l = [a].
Proof.
  induction l as [| x l IH]; intros Hnd Hin Hfa Huniq; [destruct Hin |].
  inversion Hnd as [| x' l' Hx Hnd']; subst. simpl. destruct Hin as [-> | Hin].
  - rewrite Hfa. f_equal. apply filter_nil_in. intros y Hy.
    destruct (f y) eqn:E; [| reflexivity].
    exfalso. apply Hx. rewrite <- (Huniq y (or_intror Hy) E). exact Hy.
  - destruct (f x) eqn:E.
    + exfalso. apply Hx. rewrite (Huniq x (or_introl eq_refl) E). exact Hin.
    + apply IH; auto. intros b Hb. apply Huniq. now right.
Qed.

(** When no two latitudes and no two longitudes are equal, the call at
    the coordinates of the cell [(x0, y0)] prints one value: the field at
    row [H - x0] (row 0 for [x0 = 0]) and column [y0], which is the value
    at [(x0, y0)] only when the row is its own mirror. *)
Theorem findCoordPressureData_at_grid_point (u : DataArray) (x0 y0 : Z) (la lo p : Q) :
  well_formed u -> distinct (lat u) -> distinct (lon u) ->
  at_index (lat u) x0 = Some la -> at_index (lon u) y0 = Some lo ->
  F u (mirrorRow u x0) y0 = Some p ->
  findCoordPressureData u (makeCoordArr u) la lo = ([p], true).
Proof.
  intros [Hr _] Hdlat Hdlon Hla Hlo Hp.
  assert (Hrows : exists printed,
             findCoordPressureData u (makeCoordArr u) la lo = (printed, true) /\
             map Some printed =
             map (fun c => F u (mirrorRow u (fst c)) (snd c))
                 (filter (atCoordinates u la lo) (gridCells (H u) (W u)))).
  { unfold findCoordPressureData, gridCells.
    replace (Py.len (makeCoordArr u)) with (H u)
      by (unfold makeCoordArr, H, Py.len; now rewrite length_map).
    apply pressureRows_spec; [exact Hr |]. intros x Hx. now apply in_range in Hx. }
  destruct Hrows as [printed [Hrun Hmap]].
  rewrite Hrun. f_equal.
  pose proof (at_index_Some _ _ _ Hla) as Hx0. pose proof (at_index_Some _ _ _ Hlo) as Hy0.
  rewrite (filter_unique (atCoordinates u la lo) (gridCells (H u) (W u)) (x0, y0)) in Hmap.
  - simpl in Hmap. rewrite Hp in Hmap.
    destruct printed as [| q [| q' rest]]; simpl in Hmap; try discriminate.
    now inversion Hmap.
  - eapply sorted_NoDup; [apply rowMajor_irrefl |]. apply sorted_grid, sorted_range.
  - apply in_gridCells. auto.
  - unfold atCoordinates. simpl. rewrite Hla, Hlo.
    apply andb_true_iff. split; apply Qeq_bool_iff; reflexivity.
  - intros [i j] _ Hc. unfold atCoordinates in Hc. simpl in Hc.
    destruct (at_index (lat u) i) as [a |] eqn:Ea; [| discriminate].
    destruct (at_index (lon u) j) as [b |] eqn:Eb; [| discriminate].
    apply andb_true_iff in Hc. destruct Hc as [Ha Hb].
    apply Qeq_bool_iff in Ha. apply Qeq_bool_iff in Hb.
    f_equal; [apply (Hdlat i x0 a la) | apply (Hdlon j y0 b lo)]; assumption.
Qed.

Lemma slope_axis_distinct : distinct (qs [0; 64; 128; 192]).
Proof.
  intros i j a b Ha Hb Hab.
  pose proof (at_index_Some _ _ _ Ha) as Hi. pose proof (at_index_Some _ _ _ Hb) as Hj.
  unfold Py.len in Hi, Hj. simpl in Hi, Hj.
  assert (Ci : i = 0 \/ i = 1 \/ i = 2 \/ i = 3) by lia.
  assert (Cj : j = 0 \/ j = 1 \/ j = 2 \/ j = 3) by lia.
  destruct Ci as [-> | [-> | [-> | ->]]]; destruct Cj as [-> | [-> | [-> | ->]]];
    try reflexivity;
    vm_compute in Ha, Hb; inversion Ha; inversion Hb; subst;
    unfold Qeq in Hab; simpl in Hab; discriminate.
Qed.

Lemma findCoordPressureData_at_grid_point_witness :
  well_formed slope /\ distinct (lat slope) /\ distinct (lon slope) /\
  at_index (lat slope) 1 = Some (inject_Z 64) /\
  at_index (lon slope) 2 = Some (inject_Z 128) /\
  F slope (mirrorRow slope 1) 2 = Some (inject_Z 5) /\
  F slope 1 2 = Some (inject_Z 3) /\
  findCoordPressureData slope (makeCoordArr slope) (inject_Z 64) (inject_Z 128) =
    ([inject_Z 5], true).
Proof.
  split; [grid_shape |]. split; [exact slope_axis_distinct |].
  split; [exact slope_axis_distinct |].
  split; [vm_compute; reflexivity |]. split; [vm_compute; reflexivity |].
  split; [vm_compute; reflexivity |]. split; [vm_compute; reflexivity |].
  apply (findCoordPressureData_at_grid_point slope 1 2).
  - grid_shape.
  - exact slope_axis_distinct.
  - exact slope_axis_distinct.
  - vm_compute. reflexivity.
  - vm_compute. reflexivity.
  - vm_compute. reflexivity.
Defined.

(** * The caller of [findLocalMinima] *)

(** The script hands the minima to the projection with the first
    component as latitude and the second as longitude: as many of each as
    there are minima, every latitude a negative integer in
    [-(H - 2) .. -1], every longitude in [-180 .. W - 182]. *)
Theorem geodeticArguments_range (bound : Q) (step : Z) (w : World) (out : list (Z * Z)) :
  well_formed (U w) -> 0 <= step ->
  fst (findLocalMinimaWith bound step w) = Some out ->
  length (fst (geodeticArguments out)) = length out /\
  length (snd (geodeticArguments out)) = length out /\
  Forall (fun lo => - 180 <= lo <= W (U w) - 182) (fst (geodeticArguments out)) /\
  Forall (fun la => - (H (U w) - 2) <= la <= - 1) (snd (geodeticArguments out)).
Proof.
  intros [Hr _] Hs Ho. unfold geodeticArguments. simpl. rewrite !length_map.
  split; [reflexivity |]. split; [reflexivity |].
  split; apply Forall_forall; intros v Hv; apply in_map_iff in Hv;
    destruct Hv as [p [<- Hp]];
    destruct (output_origin bound step w out p Hr Hs Ho Hp)
      as [i [j [locs [-> [Hl [Hc Ht]]]]]];
    destruct (candidate_bounds bound (U w) locs i j Hr Hl Hc) as [Hij [Hrow Hcol]];
    simpl; lia.
Qed.

Lemma geodeticArguments_range_witness :
  well_formed (U (fresh basin)) /\ 0 <= 2 /\
  fst (findLocalMinimaWith (2 # 100) 2 (fresh basin)) =
    Some [(- 2, 0 - 180); (- 2, 1 - 180)] /\
  geodeticArguments [(- 2, 0 - 180); (- 2, 1 - 180)] = ([- 180; - 179], [- 2; - 2]) /\
  Forall (fun la => - (H (U (fresh basin)) - 2) <= la <= - 1)
         (snd (geodeticArguments [(- 2, 0 - 180); (- 2, 1 - 180)])).
Proof.
  split; [grid_shape |]. split; [lia |]. split; [vm_compute; reflexivity |].
  split; [reflexivity |].
  apply (geodeticArguments_range (2 # 100) 2 (fresh basin) [(- 2, 0 - 180); (- 2, 1 - 180)]).
  - grid_shape.
  - lia.
  - vm_compute. reflexivity.
Defined.

(** * [NCL_overlay_11b.py]: the records and the clipped contour plots *)

Local Set Warnings "-notation-for-abbreviation".

Section OverlayFacts.

Variables Geometry Path Patch ContourSet Collection : Type.
Variable geos_to_path : list Geometry -> list Path.
Variable PathPatch : Path -> Patch.
Variable contourSet : list (Overlay.Call Patch ContourSet Collection) -> ContourSet.
Variable collections : ContourSet -> list Collection.

Local Notation ShapeRecord := (Overlay.ShapeRecord Geometry).
Local Notation geometry := (Overlay.geometry Geometry).
Local Notation attributes := (Overlay.attributes Geometry).
Local Notation sortGeometries := (Overlay.sortGeometries Geometry).
Local Notation provinceGeometries := (Overlay.provinceGeometries Geometry).
Local Notation isCountry := (Overlay.isCountry Geometry).
Local Notation isProvince := (Overlay.isProvince Geometry).
Local Notation Call := (Overlay.Call Patch ContourSet Collection).
Local Notation clipLoop :=
  (Overlay.clipLoop Path Patch ContourSet Collection PathPatch contourSet collections).
Local Notation drawContours :=
  (Overlay.drawContours Geometry Path Patch ContourSet Collection
     geos_to_path PathPatch contourSet collections).
Local Notation isContourf := (Overlay.isContourf Patch ContourSet Collection).
Local Notation addedPatches := (Overlay.addedPatches Patch ContourSet Collection).
Local Notation clipPatches := (Overlay.clipPatches Patch ContourSet Collection).

(** When every record has the attribute [ADMIN], the loop ends:
    [country_geos] holds the geometries of the records of China and
    Taiwan and [other_land_geos] those of the other records, both in the
    order of the shapefile, and each geometry is in exactly one list. *)
Theorem sortGeometries_partition (records : list ShapeRecord) :
  (forall r, In r records -> Overlay.dictGet (attributes r) "ADMIN" <> None) ->
  sortGeometries records =
    Some (map geometry (filter isCountry records),
          map geometry (filter (fun r => negb (isCountry r)) records)) /\
  Permutation
    (map geometry (filter isCountry records) ++
     map geometry (filter (fun r => negb (isCountry r)) records))
    (map geometry records).
Proof.
  intros Hkeys. split.
  - induction records as [| r records IH]; [reflexivity |].
    cbn [Overlay.sortGeometries filter]. rewrite IH by (intros; apply Hkeys; now right).
    specialize (Hkeys r (or_introl eq_refl)). unfold Py.bind.
    destruct (Overlay.dictGet (attributes r) "ADMIN") as [admin |] eqn:E; [| congruence].
    assert (Hc : isCountry r = Overlay.inList admin ["China"%string; "Taiwan"%string])
      by (unfold Overlay.isCountry; now rewrite E).
    rewrite Hc. cbn [fst snd].
    now destruct (Overlay.inList admin ["China"%string; "Taiwan"%string]).
  - clear Hkeys. induction records as [| r records IH]; simpl; [constructor |].
    destruct (isCountry r); simpl.
    + now constructor.
    + eapply Permutation_trans; [apply Permutation_sym, Permutation_middle |].
      now constructor.
Qed.

(** The loop over the country records raises [KeyError] exactly when some
    record has no attribute [ADMIN]. *)
Theorem sortGeometries_KeyError (records : list ShapeRecord) :
  sortGeometries records = None <->
  exists r, In r records /\ Overlay.dictGet (attributes r) "ADMIN" = None.
Proof.
  induction records as [| r records IH]; simpl.
  - split; [discriminate | intros [r [[] _]]].
  - unfold Py.bind. destruct (Overlay.dictGet (attributes r) "ADMIN") as [admin |] eqn:E.
    + destruct (sortGeometries records) as [sorted |].
      * split; [discriminate |]. intros [r' [[<- | Hin] Hr']]; [congruence |].
        assert (Hs : Some sorted = None) by (apply IH; eauto). discriminate.
      * split; [| reflexivity]. intros _.
        destruct (proj1 IH eq_refl) as [r' [Hin Hr']]. eauto.
    + split; [| reflexivity]. intros _. exists r. auto.
Qed.

(** The comprehension of the provinces keeps, in the order of the
    shapefile, the geometries of the records whose attribute [admin] is
    [China]; it raises [KeyError] exactly when some record has no
    attribute [admin]. *)
Theorem provinceGeometries_filter (records : list ShapeRecord) :
  ((forall r, In r records -> Overlay.dictGet (attributes r) "admin" <> None) ->
   provinceGeometries records = Some (map geometry (filter isProvince records))) /\
  (provinceGeometries records = None <->
   exists r, In r records /\ Overlay.dictGet (attributes r) "admin" = None).
Proof.
  split.
  - intros Hkeys. induction records as [| r records IH]; [reflexivity |].
    cbn [Overlay.provinceGeometries filter].
    rewrite IH by (intros; apply Hkeys; now right).
    specialize (Hkeys r (or_introl eq_refl)). unfold Py.bind.
    destruct (Overlay.dictGet (attributes r) "admin") as [admin |] eqn:E; [| congruence].
    assert (Hc : isProvince r = String.eqb admin "China")
      by (unfold Overlay.isProvince; now rewrite E).
    rewrite Hc. now destruct (String.eqb admin "China").
  - induction records as [| r records IH]; simpl.
    + split; [discriminate | intros [r [[] _]]].
    + unfold Py.bind. destruct (Overlay.dictGet (attributes r) "admin") as [admin |] eqn:E.
      * destruct (provinceGeometries records) as [kept |].
        -- split; [discriminate |]. intros [r' [[<- | Hin] Hr']]; [congruence |].
           assert (Hs : Some kept = None) by (apply IH; eauto). discriminate.
        -- split; [| reflexivity]. intros _.
           destruct (proj1 IH eq_refl) as [r' [Hin Hr']]. eauto.
      * split; [| reflexivity]. intros _. exists r. auto.
Qed.

Lemma clipLoop_cf (paths : list Path) (calls : list Call) (cf : option ContourSet) :
  snd (clipLoop paths calls cf) = None <-> paths = [] /\ cf = None.
Proof.
  revert calls cf. induction paths as [| path paths IH]; intros calls cf; simpl.
  - split; [auto | intros [_ Hcf]; exact Hcf].
  - rewrite IH. split; [intros [_ Hn]; discriminate | intros [Hn _]; discriminate].
Qed.

Lemma clipLoop_contourf (paths : list Path) (calls : list Call) (cf : option ContourSet) :
  length (filter isContourf (fst (clipLoop paths calls cf))) =
  (length (filter isContourf calls) + length paths)%nat.
Proof.
  revert calls cf. induction paths as [| path paths IH]; intros calls cf; simpl; [lia |].
  rewrite IH, !filter_app, !length_app. simpl.
  assert (Hclip : forall (l : list Collection) (patch : Patch),
             filter isContourf (map (fun col => Overlay.set_clip_path col patch) l)
             = []).
  { intros l patch. induction l as [| c l IHl]; simpl; auto. }
  rewrite Hclip. simpl. lia.
Qed.

Lemma clipLoop_addedPatches (paths : list Path) (calls : list Call) (cf : option ContourSet) :
  addedPatches (fst (clipLoop paths calls cf)) =
  (addedPatches calls ++ map PathPatch paths)%list.
Proof.
  revert calls cf. induction paths as [| path paths IH]; intros calls cf; simpl;
    [now rewrite app_nil_r |].
  rewrite IH. unfold Overlay.addedPatches. rewrite !flat_map_app. simpl.
  assert (Hclip : forall (l : list Collection) (patch : Patch),
             flat_map (fun c : Call => match c with
                                       | Overlay.add_patch p => [p]
                                       | _ => []
                                       end)
               (map (fun col => Overlay.set_clip_path col patch) l) = []).
  { intros l patch. induction l as [| c l IHl]; simpl; auto. }
  rewrite Hclip, !app_nil_r, <- app_assoc. reflexivity.
Qed.

Lemma clipLoop_clipPatches (paths : list Path) (calls : list Call) (cf : option ContourSet) :
  incl (clipPatches (fst (clipLoop paths calls cf)))
       (clipPatches calls ++ map PathPatch paths).
Proof.
  revert calls cf. induction paths as [| path paths IH]; intros calls cf; simpl.
  - rewrite app_nil_r. apply incl_refl.
  - intros p Hp. apply IH in Hp. apply in_app_or in Hp. apply in_or_app.
    destruct Hp as [Hp | Hp]; [| right; now right].
    unfold Overlay.clipPatches in Hp. rewrite !flat_map_app in Hp. simpl in Hp.
    rewrite !app_nil_r in Hp. apply in_app_or in Hp. destruct Hp as [Hp | Hp]; [now left |].
    right. left. apply in_flat_map in Hp. destruct Hp as [c [Hc Hp]].
    apply in_map_iff in Hc. destruct Hc as [col [<- _]]. simpl in Hp.
    destruct Hp as [Hp | []]. exact Hp.
Qed.

(** The script reaches [fig.colorbar(cf, ...)] with [cf] unbound, and
    raises [NameError], exactly when the country geometries have no path:
    [cf] is only bound inside the loop over the paths. *)
Theorem drawContours_NameError (country_geos : list Geometry) :
  drawContours country_geos = None <-> geos_to_path country_geos = [].
Proof.
  unfold Overlay.drawContours.
  pose proof (clipLoop_cf (geos_to_path country_geos) [] None) as Hcf.
  destruct (clipLoop (geos_to_path country_geos) [] None) as [calls cf]. simpl in Hcf.
  destruct cf as [cf |].
  - split; [discriminate |]. intros Hp.
    assert (Hn : Some cf = None) by (apply Hcf; auto). discriminate.
  - split; [| reflexivity]. intros _. now apply Hcf.
Qed.

(** When the script reaches the colorbar: [ax.contourf] was called once
    for each path, one patch was added for each path, in order, every
    collection was clipped by one of these patches, and the colorbar is
    the last call. *)
Theorem drawContours_calls (country_geos : list Geometry) (calls : list Call) :
  drawContours country_geos = Some calls ->
  length (filter isContourf calls) = length (geos_to_path country_geos) /\
  addedPatches calls = map PathPatch (geos_to_path country_geos) /\
  incl (clipPatches calls) (addedPatches calls) /\
  exists before cf, calls = (before ++ [Overlay.colorbar cf])%list.
Proof.
  unfold Overlay.drawContours.
  pose proof (clipLoop_contourf (geos_to_path country_geos) [] None) as Hn.
  pose proof (clipLoop_addedPatches (geos_to_path country_geos) [] None) as Ha.
  pose proof (clipLoop_clipPatches (geos_to_path country_geos) [] None) as Hc.
  destruct (clipLoop (geos_to_path country_geos) [] None) as [before cf].
  simpl in Hn, Ha, Hc. destruct cf as [cf |]; [| discriminate].
  intros Heq. inversion Heq; subst. clear Heq.
  assert (Hadded : addedPatches (before ++ [Overlay.colorbar cf]) =
                   map PathPatch (geos_to_path country_geos)).
  { unfold Overlay.addedPatches in *. rewrite flat_map_app. simpl.
    now rewrite app_nil_r. }
  split; [| split; [exact Hadded | split; [| eauto]]].
  - rewrite filter_app, length_app. simpl. lia.
  - rewrite Hadded. unfold Overlay.clipPatches in *. rewrite flat_map_app. simpl.
    now rewrite app_nil_r.
Qed.

End OverlayFacts.

Lemma sortGeometries_partition_witness :
  (forall r, In r sampleRecords ->
             Overlay.dictGet (Overlay.attributes Z r) "ADMIN" <> None) /\
  Overlay.sortGeometries Z sampleRecords = Some ([1; 3], [2; 4]) /\
  Permutation ([1; 3] ++ [2; 4]) [1; 2; 3; 4].
Proof.
  assert (Hkeys : forall r, In r sampleRecords ->
                            Overlay.dictGet (Overlay.attributes Z r) "ADMIN" <> None).
  { intros r Hin. simpl in Hin.
    destruct Hin as [<- | [<- | [<- | [<- | []]]]]; simpl; discriminate. }
  split; [exact Hkeys |].
  exact (sortGeometries_partition Z sampleRecords Hkeys).
Defined.

Lemma drawContours_calls_witness :
  sampleDraw [1; 3] =
    Some [Overlay.add_patch 2; Overlay.contourf;
          Overlay.set_clip_path 1%nat 2; Overlay.set_clip_path 2%nat 2;
          Overlay.add_patch 4; Overlay.contourf;
          Overlay.set_clip_path 5%nat 4; Overlay.set_clip_path 6%nat 4;
          Overlay.colorbar 5%nat] /\
  length (filter (Overlay.isContourf Z nat nat)
            [Overlay.add_patch 2; Overlay.contourf;
             Overlay.set_clip_path 1%nat 2; Overlay.set_clip_path 2%nat 2;
             Overlay.add_patch 4; Overlay.contourf;
             Overlay.set_clip_path 5%nat 4; Overlay.set_clip_path 6%nat 4;
             Overlay.colorbar 5%nat]) = 2%nat.
Proof.
  split; [vm_compute; reflexivity |].
  apply (drawContours_calls Z Z Z nat nat (fun geos => geos) Z.succ
           (fun calls => length calls) (fun n => [n; S n]) [1; 3]).
  vm_compute. reflexivity.
Defined.

(** * The columns that [findLocalMinima] reads *)

Lemma output_closed_form (bound : Q) (step : Z) (w : World) :
  rectangular (U w) -> H (U w) <= W (U w) -> 0 <= step ->
  fst (findLocalMinimaWith bound step w) =
  Some (map translate
          (filter (fun c => strictMinimum (U w) step (fst c) (snd c))
             (filter (fun c => latStationary bound (U w) (fst c) (snd c))
                (filter (fun c => lonStationary bound (U w) (fst c) (snd c))
                   (cells (H (U w))))))).
Proof.
  intros Hr Hw Hs. apply output_filter; try assumption.
  apply arraylocations_filter. now apply lonZeros_wide.
Qed.

(** On a grid with more columns than rows, the columns of index [H] and
    beyond are never read: two fields on the same grid that agree on the
    columns [0 .. H-1] give the same result. *)
Theorem right_columns_ignored (bound : Q) (step : Z) (u u' : DataArray)
    (printed : list (Z * Z)) :
  well_formed u -> well_formed u' -> lat u = lat u' -> lon u = lon u' ->
  H u <= W u -> 0 <= step ->
  (forall i j, j < H u -> F u i j = F u' i j) ->
  fst (findLocalMinimaWith bound step {| U := u; stdout := printed |}) =
  fst (findLocalMinimaWith bound step {| U := u'; stdout := printed |}).
Proof.
  intros [Hr _] [Hr' _] Hlat Hlon Hw Hs Hagree.
  assert (HH : H u' = H u) by (unfold H; now rewrite Hlat).
  assert (HW : W u' = W u) by (unfold W; now rewrite Hlon).
  rewrite !output_closed_form; simpl; try assumption; [| lia].
  rewrite HH. f_equal. f_equal.
  assert (Hlon_eq : forall c, In c (cells (H u)) ->
            lonStationary bound u (fst c) (snd c) = lonStationary bound u' (fst c) (snd c)).
  { intros [i j] Hc. apply in_cells in Hc. simpl.
    unfold lonStationary, dF_dlon. rewrite <- Hlon, !Hagree by lia. reflexivity. }
  assert (Hlat_eq : forall c, In c (cells (H u)) ->
            latStationary bound u (fst c) (snd c) = latStationary bound u' (fst c) (snd c)).
  { intros [i j] Hc. apply in_cells in Hc. simpl.
    unfold latStationary, dF_dlat.
    rewrite !Hagree by lia. rewrite !latGrid_rows, <- Hlat, <- Hlon. reflexivity. }
  assert (Hmin_eq : forall c, In c (cells (H u)) ->
            strictMinimum u step (fst c) (snd c) = strictMinimum u' step (fst c) (snd c)).
  { intros [i j] Hc. apply in_cells in Hc. simpl.
    unfold strictMinimum, rowBelow. rewrite HH, !Hagree by lia. reflexivity. }
  rewrite (filter_ext_in _ _ _ Hlon_eq).
  set (l1 := filter (fun c => lonStationary bound u' (fst c) (snd c)) (cells (H u))).
  assert (Hl1 : forall c, In c l1 -> In c (cells (H u)))
    by (intros c Hc; apply filter_In in Hc; tauto).
  rewrite (filter_ext_in _ (fun c => latStationary bound u' (fst c) (snd c)) l1)
    by (intros c Hc; apply Hlat_eq, Hl1, Hc).
  apply filter_ext_in. intros c Hc. apply filter_In in Hc. apply Hmin_eq, Hl1, Hc.
Qed.

Lemma wideLow_agree (i j : Z) : j < H wideLow -> F wideLow i j = F wideLow' i j.
Proof.
  unfold H, Py.len. simpl. intros Hj.
  assert (Ci : i < 0 \/ i = 0 \/ i = 1 \/ i = 2 \/ 3 <= i) by lia.
  assert (Cj : j < 0 \/ j = 0 \/ j = 1 \/ j = 2) by lia.
  unfold F, cell.
  destruct Ci as [Hi | [-> | [-> | [-> | Hi]]]].
  - unfold at_index. destruct (i <? 0) eqn:E; [reflexivity | apply Z.ltb_ge in E; lia].
  - destruct Cj as [Hn | [-> | [-> | ->]]]; try reflexivity.
    simpl. unfold at_index. destruct (j <? 0) eqn:E; [reflexivity | apply Z.ltb_ge in E; lia].
  - destruct Cj as [Hn | [-> | [-> | ->]]]; try reflexivity.
    simpl. unfold at_index. destruct (j <? 0) eqn:E; [reflexivity | apply Z.ltb_ge in E; lia].
  - destruct Cj as [Hn | [-> | [-> | ->]]]; try reflexivity.
    simpl. unfold at_index. destruct (j <? 0) eqn:E; [reflexivity | apply Z.ltb_ge in E; lia].
  - rewrite !at_index_None by (unfold Py.len; simpl; lia). reflexivity.
Qed.

Lemma right_columns_ignored_witness :
  well_formed wideLow /\ well_formed wideLow' /\
  lat wideLow = lat wideLow' /\ lon wideLow = lon wideLow' /\
  H wideLow <= W wideLow /\ 0 <= 1 /\
  (forall i j, j < H wideLow -> F wideLow i j = F wideLow' i j) /\
  fst (findLocalMinimaWith (10 # 1) 1 {| U := wideLow; stdout := [] |}) =
    Some [(- 1, 0 - 180)] /\
  fst (findLocalMinimaWith (10 # 1) 1 {| U := wideLow; stdout := [] |}) =
  fst (findLocalMinimaWith (10 # 1) 1 {| U := wideLow'; stdout := [] |}).
Proof.
  split; [grid_shape |]. split; [grid_shape |]. split; [reflexivity |].
  split; [reflexivity |]. split; [unfold H, W, Py.len; simpl; lia |]. split; [lia |].
  split; [exact wideLow_agree |]. split; [vm_compute; reflexivity |].
  apply (right_columns_ignored (10 # 1) 1 wideLow wideLow' []).
  - grid_shape.
  - grid_shape.
  - reflexivity.
  - reflexivity.
  - unfold H, W, Py.len. simpl. lia.
  - lia.
  - exact wideLow_agree.
Defined.
